(** * Chatbot.py: the conversation context and the turn loop of [ChatbotApp]

    A shallow embedding of [src/Chatbot.py].  The Python object [ChatbotApp]
    becomes a record, its methods become computations in a state monad whose
    exceptions do not roll the state back (as in Python), and the tokenizer
    and the model, two attributes of the object, are records of functions.
    Python's built-in [repr] on strings, which the text of a [KeyError] needs,
    is a parameter of the development. *)

From Stdlib Require Import ZArith QArith String Ascii.
From stdpp Require Import base option list gmap.

Local Open Scope Z_scope.

(** ** Text

    A Python [str] is a sequence of Unicode code points. *)

Definition char := N.
Definition str := list char.

(** A literal of the source, character by character. *)
Definition lit (s : string) : str := N_of_ascii <$> list_ascii_of_string s.
#[global] Arguments lit : simpl never.

(** [str.isspace] on one character: the code points CPython's
    [_PyUnicode_IsWhitespace] accepts. *)
Definition is_space (c : char) : bool :=
  (((9 <=? c) && (c <=? 13)) || ((28 <=? c) && (c <=? 32))
   || (c =? 133) || (c =? 160) || (c =? 5760)
   || ((8192 <=? c) && (c <=? 8202))
   || (c =? 8232) || (c =? 8233) || (c =? 8239) || (c =? 8287)
   || (c =? 12288))%N.

Fixpoint lstrip (s : str) : str :=
  match s with
  | c :: s' => if is_space c then lstrip s' else s
  | [] => []
  end.

Definition rstrip (s : str) : str := reverse (lstrip (reverse s)).

(** [s.strip()]: whitespace removed from both ends. *)
Definition strip (s : str) : str := rstrip (lstrip s).

(** ** Token tensors

    Every tensor of the program has shape [(1, n)]: [encode] is called on one
    string with [return_tensors="pt"], and [generate] and [torch.cat] along
    the last axis keep the single row.  A tensor is modelled by that row;
    [shape[-1]] is its length. *)

Definition tensor := list Z.

Definition shape_last (t : tensor) : Z := Z.of_nat (length t).

(** [torch.cat([a, b], dim=-1)] *)
Definition cat (a b : tensor) : tensor := a ++ b.

(** [t[:, start:]] with Python's treatment of the start index: a negative
    index counts from the end, and the result is clamped to the row. *)
Definition slice_from (start : Z) (t : tensor) : tensor :=
  let n := shape_last t in
  let i := if start <? 0 then Z.max (start + n) 0 else Z.min start n in
  drop (Z.to_nat i) t.

(** Lines 174-175 of [send_message], the history length limit:
<<
    if self.chat_history_ids.shape[-1] > self.max_history_length:
        self.chat_history_ids = self.chat_history_ids[:, -self.max_history_length//2:]
>>
    The start index is [(-max_history_length) // 2]: the unary minus binds
    tighter than the floor division. *)
Definition enforce_budget (max_length : Z) (ids : tensor) : tensor :=
  if shape_last ids >? max_length
  then slice_from ((- max_length) / 2) ids
  else ids.

(** The last [k] tokens of a row. *)
Definition last_tokens (k : nat) (t : tensor) : tensor :=
  drop (length t - k)%nat t.

(** ** Exceptions

    What a call can raise.  [KeyError] is what the program raises itself, on
    a failed dictionary lookup.  [Exception] stands for any other instance of
    the class [Exception], with the text [str(e)] gives for it.
    [BaseException] stands for what is raised and is not an instance of
    [Exception] ([KeyboardInterrupt], [SystemExit], [GeneratorExit]): the
    handlers of the program, written [except Exception], let it through. *)

Inductive exn :=
  | KeyError (key : str)
  | Exception (description : str)
  | BaseException (description : str).

(** [isinstance(e, Exception)] *)
Definition is_Exception (e : exn) : bool :=
  match e with
  | KeyError _ | Exception _ => true
  | BaseException _ => false
  end.

Inductive result (A : Type) :=
  | Ok (a : A)
  | Raise (e : exn).
Arguments Ok {A} a.
Arguments Raise {A} e.

(** ** The tokenizer and the model, external collaborators *)

Record Tokenizer := {
  encode : str -> result tensor;
  decode : tensor -> bool -> result str;   (* the flag is skip_special_tokens *)
  eos_token : str;
  eos_token_id : Z;
  pad_token : option str
}.

(** The keyword arguments of [model.generate]. *)
Record GenerationConfig := {
  max_length : Z;
  pad_token_id : Z;
  temperature : Q;
  repetition_penalty : Q
}.

(** [generate] is a function of its arguments: the call does not set
    [do_sample], so decoding is greedy. *)
Record Model := {
  generate : tensor -> GenerationConfig -> result tensor
}.

(** ** The chat display, a Tk text widget *)

Inductive widget_state := normal | disabled.

Record Font := {
  family : str;
  size : Z;
  weight : option str
}.

Record TagStyle := {
  foreground : option str;
  font : Font
}.

(** The widget's text is kept as the inserted pieces, each with its tag. *)
Record ScrolledText := {
  state : widget_state;
  chunks : list (str * str);
  tag_styles : gmap str TagStyle
}.

(** ** The application object *)

Record ChatbotApp := {
  tokenizer : Tokenizer;
  model : Model;
  chat_history_ids : option tensor;     (* None until the first reply *)
  max_history_length : Z;
  chat_display : ScrolledText;
  user_input : str;                     (* the content of the entry *)
  (* instrumentation, not an attribute of the Python object: the arguments
     of every call to [model.generate], oldest first *)
  generate_calls : list (tensor * GenerationConfig)
}.

Definition set_chat_history_ids (h : option tensor) (app : ChatbotApp) : ChatbotApp :=
  {| tokenizer := tokenizer app; model := model app;
     chat_history_ids := h;
     max_history_length := max_history_length app;
     chat_display := chat_display app; user_input := user_input app;
     generate_calls := generate_calls app |}.

Definition set_chat_display (d : ScrolledText) (app : ChatbotApp) : ChatbotApp :=
  {| tokenizer := tokenizer app; model := model app;
     chat_history_ids := chat_history_ids app;
     max_history_length := max_history_length app;
     chat_display := d; user_input := user_input app;
     generate_calls := generate_calls app |}.

Definition set_user_input (s : str) (app : ChatbotApp) : ChatbotApp :=
  {| tokenizer := tokenizer app; model := model app;
     chat_history_ids := chat_history_ids app;
     max_history_length := max_history_length app;
     chat_display := chat_display app; user_input := s;
     generate_calls := generate_calls app |}.

Definition log_generate_call (ids : tensor) (cfg : GenerationConfig)
    (app : ChatbotApp) : ChatbotApp :=
  {| tokenizer := tokenizer app; model := model app;
     chat_history_ids := chat_history_ids app;
     max_history_length := max_history_length app;
     chat_display := chat_display app; user_input := user_input app;
     generate_calls := generate_calls app ++ [(ids, cfg)] |}.

(** ** Methods as computations

    A method takes the object and returns it, possibly changed, with a value
    or a raised exception.  What was assigned before a [raise] stays
    assigned. *)

Definition M (A : Type) : Type := ChatbotApp -> ChatbotApp * result A.

#[global] Instance M_ret : MRet M := fun A a app => (app, Ok a).

#[global] Instance M_bind : MBind M := fun A B k m app =>
  match m app with
  | (app', Ok a) => k a app'
  | (app', Raise e) => (app', Raise e)
  end.

Definition raise {A : Type} (e : exn) : M A := fun app => (app, Raise e).

(** [try: body  except Exception as e: handler e].  What is not an
    instance of [Exception] is not caught. *)
Definition try_except {A : Type} (body : M A) (handler : exn -> M A) : M A :=
  fun app =>
    match body app with
    | (app', Ok a) => (app', Ok a)
    | (app', Raise e) =>
        if is_Exception e then handler e app' else (app', Raise e)
    end.

(** Reading an attribute, assigning to the object, and a call that may
    raise without touching the object. *)
Definition gets {A : Type} (f : ChatbotApp -> A) : M A :=
  fun app => (app, Ok (f app)).

Definition modify (f : ChatbotApp -> ChatbotApp) : M unit :=
  fun app => (f app, Ok tt).

Definition call {A : Type} (r : result A) : M A := fun app => (app, r).

(** ** [update_chat] *)

(** [widget.config(state=...)] *)
Definition text_config (st : widget_state) (w : ScrolledText) : ScrolledText :=
  {| state := st; chunks := chunks w; tag_styles := tag_styles w |}.

(** [widget.insert("end", text, tag)]; Tk ignores it on a disabled widget. *)
Definition text_insert (text tag : str) (w : ScrolledText) : ScrolledText :=
  match state w with
  | normal =>
      {| state := normal; chunks := chunks w ++ [(text, tag)];
         tag_styles := tag_styles w |}
  | disabled => w
  end.

(** [widget.tag_config(tag, foreground=..., font=...)]: the options given
    are set, the others keep their value. *)
Definition text_tag_config (tag : str) (fg : option str) (fnt : Font)
    (w : ScrolledText) : ScrolledText :=
  let old := tag_styles w !! tag in
  let fg' := match fg with
             | Some c => Some c
             | None => old ≫= foreground
             end in
  {| state := state w; chunks := chunks w;
     tag_styles := <[tag := {| foreground := fg'; font := fnt |}]> (tag_styles w) |}.

Definition display (f : ScrolledText -> ScrolledText) : M unit :=
  modify (fun app => set_chat_display (f (chat_display app)) app).

(** The dictionary of line 184. *)
Definition tags : gmap str (str * str) :=
  <[lit "You" := (lit "you", lit "#2c3e50")]>
  (<[lit "AI" := (lit "ai", lit "#2980b9")]>
  (<[lit "System" := (lit "sys", lit "#e74c3c")]> ∅)).

(** [d[key]] *)
Definition subscript {V : Type} (d : gmap str V) (key : str) : M V :=
  match d !! key with
  | Some v => mret v
  | None => raise (KeyError key)
  end.

Definition arial (w : option str) : Font :=
  {| family := lit "Arial"; size := 10; weight := w |}.

Definition newline : char := 10%N.

(** The arguments of a call are evaluated before the call: [tags[sender]]
    is looked up before the first [insert] runs.  The final
    [see("end")] only scrolls and is left out. *)
Definition update_chat (sender message : str) : M unit :=
  display (text_config normal) ;;
  tag ← subscript tags sender ;
  display (text_insert (sender ++ lit ": ") tag.1) ;;
  display (text_insert (message ++ [newline; newline]) (lit "msg")) ;;
  tag0 ← subscript tags sender ;
  tag1 ← subscript tags sender ;
  display (text_tag_config tag0.1 (Some tag1.2) (arial (Some (lit "bold")))) ;;
  display (text_tag_config (lit "msg") None (arial None)) ;;
  display (text_config disabled).

(** ** [__init__] and [setup_ui] *)

Definition fresh_display : ScrolledText :=
  {| state := disabled; chunks := []; tag_styles := ∅ |}.

Definition setup_ui : M unit :=
  modify (set_chat_display fresh_display) ;;
  modify (set_user_input []) ;;
  update_chat (lit "AI") (lit "Hello! How can I help you today?").

(** The tokenizer and the model arrive loaded; a missing pad token is
    aliased to the end-of-text token. *)
Definition init (tok : Tokenizer) (mdl : Model) : ChatbotApp * result unit :=
  let tok' :=
    match pad_token tok with
    | None =>
        {| encode := encode tok; decode := decode tok;
           eos_token := eos_token tok; eos_token_id := eos_token_id tok;
           pad_token := Some (eos_token tok) |}
    | Some _ => tok
    end in
  setup_ui
    {| tokenizer := tok'; model := mdl;
       chat_history_ids := None;
       max_history_length := 1024;
       chat_display := fresh_display; user_input := [];
       generate_calls := [] |}.

Definition new_app (tok : Tokenizer) (mdl : Model) : ChatbotApp :=
  (init tok mdl).1.

(** ** The external calls of [send_message] *)

Definition tokenizer_encode (text : str) : M tensor :=
  tok ← gets tokenizer ; call (encode tok text).

Definition tokenizer_decode (ids : tensor) (skip_special_tokens : bool) : M str :=
  tok ← gets tokenizer ; call (decode tok ids skip_special_tokens).

Definition model_generate (ids : tensor) (cfg : GenerationConfig) : M tensor :=
  modify (log_generate_call ids cfg) ;;
  mdl ← gets model ; call (generate mdl ids cfg).

(** Lines 149-152: the history, when there is one, goes in front. *)
Definition generation_input (history : option tensor) (new_input : tensor) : tensor :=
  match history with
  | Some h => cat h new_input
  | None => new_input
  end.

(** ** The host of [install_dependencies]

    The function talks to the host: it imports two modules, asks the user a
    question, runs [pip], shows a dialog and leaves the process through
    [sys.exit].  A run is the list of dialogs and commands it caused, with
    the way it ended.  Every call to the host may raise. *)

Module Bootstrap.

Inductive event :=
  | AskYesNo (title message : str)
  | CheckCall (args : list str)
  | ShowInfo (title message : str)
  | ShowError (title message : str).

(** What reaches a handler of the function: an [ImportError] (or one of its
    subclasses) with its text, or any other exception. *)
Inductive raised :=
  | ImportError (description : str)
  | OtherException (e : exn).

(** [isinstance(r, Exception)] *)
Definition raised_is_Exception (r : raised) : bool :=
  match r with
  | ImportError _ => true
  | OtherException e => is_Exception e
  end.

(** [SystemExit] comes from the function's own [sys.exit]. *)
Inductive completion (A : Type) :=
  | Done (a : A)
  | Raised (r : raised)
  | SystemExit (code : Z).
Arguments Done {A} a.
Arguments Raised {A} r.
Arguments SystemExit {A} code.

Inductive import_result :=
  | Imported
  | ImportRaises (r : raised).

Record Host := {
  import_module : str -> import_result;      (* [import name] *)
  askyesno : str -> str -> result bool;      (* the user's answer *)
  showinfo : str -> str -> result unit;
  showerror : str -> str -> result unit;
  check_call : list str -> result unit;      (* raises when the command fails *)
  executable : str                           (* sys.executable *)
}.

(** [import name] finds the module and runs it without a raise. *)
Definition importable (h : Host) (name : str) : bool :=
  match import_module h name with
  | Imported => true
  | ImportRaises _ => false
  end.

Definition P (A : Type) : Type := Host -> list event * completion A.

#[global] Instance P_ret : MRet P := fun A a h => ([], Done a).

#[global] Instance P_bind : MBind P := fun A B k m h =>
  match m h with
  | (tr, Done a) => let (tr', c) := k a h in (tr ++ tr', c)
  | (tr, Raised r) => (tr, Raised r)
  | (tr, SystemExit code) => (tr, SystemExit code)
  end.

(** [try: body  except ImportError: handler] *)
Definition except_ImportError {A : Type} (body handler : P A) : P A :=
  fun h =>
    match body h with
    | (tr, Raised (ImportError _)) => let (tr', c) := handler h in (tr ++ tr', c)
    | r => r
    end.

(** [try: body  except Exception as e: handler e]: neither [SystemExit] nor
    anything else outside [Exception] is caught. *)
Definition except_Exception {A : Type} (body : P A) (handler : raised -> P A) : P A :=
  fun h =>
    match body h with
    | (tr, Raised r) =>
        if raised_is_Exception r
        then let (tr', c) := handler r h in (tr ++ tr', c)
        else (tr, Raised r)
    | r => r
    end.

(** The end of a call to the host. *)
Definition completed {A : Type} (r : result A) : completion A :=
  match r with
  | Ok a => Done a
  | Raise e => Raised (OtherException e)
  end.

Definition import (name : str) : P unit :=
  fun h =>
    ([], match import_module h name with
         | Imported => Done tt
         | ImportRaises r => Raised r
         end).

Definition messagebox_askyesno (title message : str) : P bool :=
  fun h => ([AskYesNo title message], completed (askyesno h title message)).

Definition messagebox_showinfo (title message : str) : P unit :=
  fun h => ([ShowInfo title message], completed (showinfo h title message)).

Definition messagebox_showerror (title message : str) : P unit :=
  fun h => ([ShowError title message], completed (showerror h title message)).

Definition subprocess_check_call (args : list str) : P unit :=
  fun h => ([CheckCall args], completed (check_call h args)).

Definition sys_exit {A : Type} (code : Z) : P A :=
  fun h => ([], SystemExit code).

Definition sys_executable : P str := fun h => ([], Done (executable h)).

Definition pip_install (exe : str) (packages : list str) : list str :=
  [exe; lit "-m"; lit "pip"; lit "install"] ++ packages.

Definition torch_packages : list str :=
  [lit "torch"; lit "torchvision"; lit "torchaudio"].

Definition transformers_packages : list str := [lit "transformers"].

Definition question : event :=
  AskYesNo (lit "Dependencies Missing")
    (lit "Required packages (PyTorch & Transformers) are missing. Install now? (Internet connection required)").

(** What the host answers: both modules import; an import raised
    [ImportError], so that the handler of line 11 runs; the answer to the
    question; the call that shows the success dialog; the two command
    lines. *)
Definition present (h : Host) : bool :=
  importable h (lit "torch") && importable h (lit "transformers").

Definition missing (h : Host) : bool :=
  match import_module h (lit "torch") with
  | ImportRaises (ImportError _) => true
  | ImportRaises (OtherException _) => false
  | Imported =>
      match import_module h (lit "transformers") with
      | ImportRaises (ImportError _) => true
      | _ => false
      end
  end.

Definition asked (h : Host) : result bool :=
  askyesno h (lit "Dependencies Missing")
    (lit "Required packages (PyTorch & Transformers) are missing. Install now? (Internet connection required)").

Definition success_shown (h : Host) : result unit :=
  showinfo h (lit "Success")
    (lit "Libraries installed successfully!" ++ [newline]
     ++ lit "Restart the application.").

Definition torch_args (h : Host) : list str :=
  pip_install (executable h) torch_packages.

Definition transformers_args (h : Host) : list str :=
  pip_install (executable h) transformers_packages.

Definition success_dialog : event :=
  ShowInfo (lit "Success")
    (lit "Libraries installed successfully!" ++ [newline]
     ++ lit "Restart the application.").

(** Hosts to run the function on: one with both modules; three without
    them whose user agrees, where the second [pip] command fails, where
    everything works, and where the first [pip] command is interrupted. *)
Definition no_module (name : str) : import_result :=
  ImportRaises (ImportError (lit "No module named '" ++ name ++ lit "'")).

Definition ready_host : Host :=
  {| import_module := fun _ => Imported;
     askyesno := fun _ _ => Ok false;
     showinfo := fun _ _ => Ok tt;
     showerror := fun _ _ => Ok tt;
     check_call := fun _ => Ok tt;
     executable := lit "python" |}.

Definition bare_host : Host :=
  {| import_module := no_module;
     askyesno := fun _ _ => Ok true;
     showinfo := fun _ _ => Ok tt;
     showerror := fun _ _ => Ok tt;
     check_call := fun args =>
       if decide (lit "transformers" ∈ args)
       then Raise (Exception (lit "exit status 1")) else Ok tt;
     executable := lit "python" |}.

Definition fresh_host : Host :=
  {| import_module := no_module;
     askyesno := fun _ _ => Ok true;
     showinfo := fun _ _ => Ok tt;
     showerror := fun _ _ => Ok tt;
     check_call := fun _ => Ok tt;
     executable := lit "python" |}.

Definition interrupted_host : Host :=
  {| import_module := no_module;
     askyesno := fun _ _ => Ok true;
     showinfo := fun _ _ => Ok tt;
     showerror := fun _ _ => Ok tt;
     check_call := fun _ => Raise (BaseException (lit "KeyboardInterrupt"));
     executable := lit "python" |}.

End Bootstrap.

(** ** Small collaborators to run the program on

    A tokenizer with one token per character and [$] as end-of-text; a model
    that answers [ok], unless the input holds a [!], where it fails, or a
    [^], where it is interrupted; a model that answers with six hundred
    tokens; a model that returns nothing once its input is longer than
    three tokens.  [toy_repr] is Python's [repr] on the keys these runs
    meet, which are made of letters. *)

Definition toy_tokenizer : Tokenizer :=
  {| encode := fun text => Ok (Z.of_N <$> text);
     decode := fun ids skip =>
       Ok (Z.to_N <$> (if skip then filter (fun t => t ≠ 36) ids else ids));
     eos_token := lit "$";
     eos_token_id := 36;
     pad_token := None |}.

Definition toy_model : Model :=
  {| generate := fun ids _ =>
       if decide (33 ∈ ids) then Raise (Exception (lit "boom"))
       else if decide (94 ∈ ids)
       then Raise (BaseException (lit "KeyboardInterrupt"))
       else Ok (ids ++ [111; 107; 36]) |}.

Definition long_model : Model :=
  {| generate := fun ids _ => Ok (ids ++ replicate 600 7) |}.

Definition forgetful_model : Model :=
  {| generate := fun ids _ =>
       if decide (length ids <= 3)%nat then Ok (ids ++ [1]) else Ok [] |}.

Definition toy_app : ChatbotApp := new_app toy_tokenizer toy_model.

Definition toy_repr (key : str) : str := lit "'" ++ key ++ lit "'".

(** * The program over Python's [repr] *)

Section Program.

(** [repr] on strings: quotes chosen by the content, escapes for what is
    not printable. *)
Variable repr : str -> str.

(** [str(e)]: a [KeyError] shows the [repr] of its key. *)
Definition exn_str (e : exn) : str :=
  match e with
  | KeyError key => repr key
  | Exception description => description
  | BaseException description => description
  end.

(** ** [send_message] *)

(** Lines 143-177, the body of the [try]. *)
Definition respond (user_msg : str) : M unit :=
  eos ← gets (fun app => eos_token (tokenizer app)) ;
  new_input ← tokenizer_encode (user_msg ++ eos) ;
  history ← gets chat_history_ids ;
  let input_ids := generation_input history new_input in
  limit ← gets max_history_length ;
  pad ← gets (fun app => eos_token_id (tokenizer app)) ;
  response ← model_generate input_ids
    {| max_length := limit; pad_token_id := pad;
       temperature := 7 # 10; repetition_penalty := 12 # 10 |} ;
  let response_start := shape_last input_ids in
  bot_response ← tokenizer_decode (slice_from response_start response) true ;
  modify (set_chat_history_ids (Some response)) ;;
  limit' ← gets max_history_length ;
  current ← gets chat_history_ids ;
  match current with
  | Some ids => modify (set_chat_history_ids (Some (enforce_budget limit' ids)))
  | None => raise (Exception (lit "'NoneType' object has no attribute 'shape'"))
  end ;;
  update_chat (lit "AI") bot_response.

Definition send_message : M unit :=
  user_msg ← gets (fun app => strip (user_input app)) ;
  if decide (user_msg = []) then mret tt
  else
    modify (set_user_input []) ;;
    update_chat (lit "You") user_msg ;;
    try_except (respond user_msg)
      (fun e => update_chat (lit "System") (lit "Error: " ++ exn_str e)).

(** ** Sessions

    Between two calls of [send_message] the user edits the entry; a turn is
    the entry holding [text] when [send_message] runs.  [send_message] is a
    Tk callback: when a raise leaves it, Tk reports the raise and the session
    goes on from the object as the call left it, unless the raise is a
    [SystemExit], which ends the session. *)

Definition run_turn (text : str) (app : ChatbotApp) : ChatbotApp :=
  (send_message (set_user_input text app)).1.

Inductive reachable_from (app0 : ChatbotApp) : ChatbotApp -> Prop :=
  | reach_start : reachable_from app0 app0
  | reach_turn app text :
      reachable_from app0 app -> reachable_from app0 (run_turn text app).

(** A session given by the texts of its turns, oldest first. *)
Definition session (texts : list str) (app : ChatbotApp) : ChatbotApp :=
  foldl (fun a text => run_turn text a) app texts.

(** The conversation context as a token sequence: empty until the first
    reply. *)
Definition context (app : ChatbotApp) : tensor :=
  default [] (chat_history_ids app).

(** What one successful [update_chat] adds to the display. *)
Definition rendered (sender tag message : str) : list (str * str) :=
  [(sender ++ lit ": ", tag); (message ++ [newline; newline], lit "msg")].

Definition shown (app : ChatbotApp) : list (str * str) :=
  chunks (chat_display app).

(** ** One call of [send_message], case by case

    The same computation with the monad unfolded: what the three external
    calls return decides the object [send_message] leaves behind. *)

Definition render_message (sender tag color message : str)
    (w : ScrolledText) : ScrolledText :=
  text_config disabled
    (text_tag_config (lit "msg") None (arial None)
      (text_tag_config tag (Some color) (arial (Some (lit "bold")))
        (text_insert (message ++ [newline; newline]) (lit "msg")
          (text_insert (sender ++ lit ": ") tag
            (text_config normal w))))).

Definition show (sender tag color message : str) (app : ChatbotApp) : ChatbotApp :=
  set_chat_display (render_message sender tag color message (chat_display app)) app.

Definition decoding_config (app : ChatbotApp) : GenerationConfig :=
  {| max_length := max_history_length app;
     pad_token_id := eos_token_id (tokenizer app);
     temperature := 7 # 10; repetition_penalty := 12 # 10 |}.

Inductive outcome :=
  | Ignored
  | EncodeFailed (e : exn)
  | Failed (input : tensor) (e : exn)      (* in generate or in decode *)
  | Replied (input response : tensor) (reply : str).

Definition outcome_of (app : ChatbotApp) : outcome :=
  let user_msg := strip (user_input app) in
  if decide (user_msg = []) then Ignored
  else
    match encode (tokenizer app) (user_msg ++ eos_token (tokenizer app)) with
    | Raise e => EncodeFailed e
    | Ok new_input =>
        let input := generation_input (chat_history_ids app) new_input in
        match generate (model app) input (decoding_config app) with
        | Raise e => Failed input e
        | Ok response =>
            match decode (tokenizer app)
                    (slice_from (shape_last input) response) true with
            | Raise e => Failed input e
            | Ok reply => Replied input response reply
            end
        end
    end.

Definition echoed (app : ChatbotApp) : ChatbotApp :=
  show (lit "You") (lit "you") (lit "#2c3e50") (strip (user_input app))
    (set_user_input [] app).

Definition show_error (e : exn) (app : ChatbotApp) : ChatbotApp :=
  show (lit "System") (lit "sys") (lit "#e74c3c") (lit "Error: " ++ exn_str e) app.

(** The handler of line 179 runs for an instance of [Exception] only. *)
Definition handled (e : exn) (app : ChatbotApp) : ChatbotApp :=
  if is_Exception e then show_error e app else app.

Definition after (o : outcome) (app : ChatbotApp) : ChatbotApp :=
  match o with
  | Ignored => app
  | EncodeFailed e => handled e (echoed app)
  | Failed input e =>
      handled e (log_generate_call input (decoding_config app) (echoed app))
  | Replied input response reply =>
      show (lit "AI") (lit "ai") (lit "#2980b9") reply
        (set_chat_history_ids
           (Some (enforce_budget (max_history_length app) response))
           (log_generate_call input (decoding_config app) (echoed app)))
  end.

(** What [send_message] returns or lets out. *)
Definition returned (o : outcome) : result unit :=
  match o with
  | EncodeFailed e | Failed _ e => if is_Exception e then Ok tt else Raise e
  | Ignored | Replied _ _ _ => Ok tt
  end.

(** ** Vocabulary of the specification *)

(** The session is active once the context holds a token. *)
Definition active (app : ChatbotApp) : Prop := context app <> [].

(** The contract assumed of [generate]: the output is at least as long as
    the input. *)
Definition invoker_contract (mdl : Model) : Prop :=
  forall ids cfg out, generate mdl ids cfg = Ok out ->
    (length ids <= length out)%nat.

(** One of the three external calls of a turn raises [e]. *)
Inductive turn_raises (app : ChatbotApp) (user_msg : str) (e : exn) : Prop :=
  | encode_raises :
      encode (tokenizer app) (user_msg ++ eos_token (tokenizer app)) = Raise e ->
      turn_raises app user_msg e
  | generate_raises new_input :
      encode (tokenizer app) (user_msg ++ eos_token (tokenizer app)) = Ok new_input ->
      generate (model app) (generation_input (chat_history_ids app) new_input)
        (decoding_config app) = Raise e ->
      turn_raises app user_msg e
  | decode_raises new_input response :
      encode (tokenizer app) (user_msg ++ eos_token (tokenizer app)) = Ok new_input ->
      generate (model app) (generation_input (chat_history_ids app) new_input)
        (decoding_config app) = Ok response ->
      decode (tokenizer app)
        (slice_from (shape_last (generation_input (chat_history_ids app) new_input))
           response) true = Raise e ->
      turn_raises app user_msg e.

(** Failure isolation as the specification words it: the context is the
    one before the turn and the display gained a system message and nothing
    else. *)
Definition isolated_with_only_a_system_message (before after : ChatbotApp) : Prop :=
  chat_history_ids after = chat_history_ids before
  /\ exists message,
       shown after = shown before ++ rendered (lit "System") (lit "sys") message.

(** ** The halving policy as the specification words it

    Above the limit the row becomes its last [max_length // 2] tokens, and
    so has that length; at or below the limit it stays as it is. *)

Definition halving_truncation (max_length : Z) (ids : tensor) : Prop :=
  (shape_last ids > max_length ->
     enforce_budget max_length ids = last_tokens (Z.to_nat (max_length / 2)) ids
     /\ shape_last (enforce_budget max_length ids) = max_length / 2)
  /\ (shape_last ids <= max_length -> enforce_budget max_length ids = ids).

(** ** Transcripts

    What a session leaves in the display: the greeting of [setup_ui], then
    for every turn that was not blank the user's text and the answer to it,
    a reply of the model or the report of a failure; no answer when a raise
    left the turn. *)

Inductive answer :=
  | Reply (text : str)
  | Failure (e : exn).

Definition answer_chunks (a : answer) : list (str * str) :=
  match a with
  | Reply text => rendered (lit "AI") (lit "ai") text
  | Failure e =>
      rendered (lit "System") (lit "sys") (lit "Error: " ++ exn_str e)
  end.

Definition exchange_chunks (x : str * answer) : list (str * str) :=
  rendered (lit "You") (lit "you") x.1 ++ answer_chunks x.2.

Definition welcome : list (str * str) :=
  rendered (lit "AI") (lit "ai") (lit "Hello! How can I help you today?").

(** What a turn that was not blank adds: the user's text, and the answer
    when the turn got to one. *)
Definition turn_chunks (x : str * option answer) : list (str * str) :=
  rendered (lit "You") (lit "you") x.1 ++ from_option answer_chunks [] x.2.

(** The texts a session echoes: those of its turns that are not blank,
    stripped, in order. *)
Definition spoken (texts : list str) : list str :=
  filter (fun s => s <> []) (strip <$> texts).

(** The answer a turn shows, if it shows one. *)
Definition answer_of (o : outcome) : option answer :=
  match o with
  | Ignored => None
  | EncodeFailed e | Failed _ e =>
      if is_Exception e then Some (Failure e) else None
  | Replied _ _ reply => Some (Reply reply)
  end.

(** A text that neither starts nor ends with whitespace, and is not empty. *)
Definition trimmed (s : str) : bool :=
  match head s, last s with
  | Some a, Some b => negb (is_space a) && negb (is_space b)
  | _, _ => false
  end.

(** The styles [update_chat] gives to the tag of a label and to [msg]. *)
Definition label_style (color : str) : TagStyle :=
  {| foreground := Some color; font := arial (Some (lit "bold")) |}.

Definition message_style : TagStyle :=
  {| foreground := None; font := arial None |}.

(** A piece of the display is a message in the plain style, or the label of
    a sender of the dictionary in bold and in that sender's colour. *)
Definition piece_styled (w : ScrolledText) (piece : str * str) : Prop :=
  (piece.2 = lit "msg" /\ tag_styles w !! lit "msg" = Some message_style)
  \/ exists sender color,
       tags !! sender = Some (piece.2, color)
       /\ piece.1 = sender ++ lit ": "
       /\ tag_styles w !! piece.2 = Some (label_style color).

(** ** [install_dependencies] *)

Import Bootstrap.

(** [str(e)] *)
Definition raised_str (r : raised) : str :=
  match r with
  | ImportError description => description
  | OtherException e => exn_str e
  end.

Definition failure_dialog (r : raised) : event :=
  ShowError (lit "Installation Failed")
    (lit "Error installing dependencies:" ++ [newline] ++ raised_str r).

Definition install_dependencies : P unit :=
  except_ImportError
    (import (lit "torch") ;; import (lit "transformers"))
    (yes ← messagebox_askyesno (lit "Dependencies Missing")
       (lit "Required packages (PyTorch & Transformers) are missing. Install now? (Internet connection required)") ;
     if (yes : bool) then
       except_Exception
         (exe ← sys_executable ;
          subprocess_check_call (pip_install exe torch_packages) ;;
          exe' ← sys_executable ;
          subprocess_check_call (pip_install exe' transformers_packages) ;;
          messagebox_showinfo (lit "Success")
            (lit "Libraries installed successfully!" ++ [newline]
             ++ lit "Restart the application.") ;;
          sys_exit 0)
         (fun e =>
            messagebox_showerror (lit "Installation Failed")
              (lit "Error installing dependencies:" ++ [newline] ++ raised_str e) ;;
            sys_exit 1)
     else mret tt).

(** ** [install_dependencies], case by case

    The same run with the monad unfolded: the handler of line 42, the [try]
    of lines 16-41 and the handler of line 11. *)

Definition failure_shown (h : Host) (r : raised) : result unit :=
  showerror h (lit "Installation Failed")
    (lit "Error installing dependencies:" ++ [newline] ++ raised_str r).

(** [r] was raised in the [try] after the events [tr]. *)
Definition failing (h : Host) (tr : list event) (r : raised)
    : list event * completion unit :=
  if raised_is_Exception r
  then (tr ++ [failure_dialog r],
        match failure_shown h r with
        | Ok _ => SystemExit 1
        | Raise e => Raised (OtherException e)
        end)
  else (tr, Raised r).

Definition installing (h : Host) : list event * completion unit :=
  match check_call h (torch_args h) with
  | Raise e => failing h [CheckCall (torch_args h)] (OtherException e)
  | Ok _ =>
      match check_call h (transformers_args h) with
      | Raise e =>
          failing h [CheckCall (torch_args h); CheckCall (transformers_args h)]
            (OtherException e)
      | Ok _ =>
          match success_shown h with
          | Raise e =>
              failing h [CheckCall (torch_args h);
                         CheckCall (transformers_args h); success_dialog]
                (OtherException e)
          | Ok _ =>
              ([CheckCall (torch_args h); CheckCall (transformers_args h);
                success_dialog], SystemExit 0)
          end
      end
  end.

Definition asking (h : Host) : list event * completion unit :=
  match asked h with
  | Raise e => ([question], Raised (OtherException e))
  | Ok true => (question :: (installing h).1, (installing h).2)
  | Ok false => ([question], Done tt)
  end.

(** * Properties *)

(** ** Slices and the history limit *)

Section Truncation.

Implicit Types (t ids : tensor) (m c : Z).

Lemma shape_last_nonneg t : 0 <= shape_last t.
Proof. unfold shape_last. lia. Qed.

(** A negative start index within the row keeps that many last tokens. *)
Lemma slice_from_neg c t :
  0 < c <= shape_last t -> slice_from (- c) t = last_tokens (Z.to_nat c) t.
Proof.
  unfold slice_from, last_tokens, shape_last. intros Hc.
  destruct (Z.ltb_spec (- c) 0) as [_ | ?]; [| lia].
  f_equal. lia.
Qed.

Lemma slice_from_zero t : slice_from 0 t = t.
Proof.
  unfold slice_from, shape_last. simpl.
  replace (Z.to_nat (Z.min 0 (Z.of_nat (length t)))) with 0%nat by lia.
  reflexivity.
Qed.

(** A start index inside the row drops exactly that many tokens. *)
Lemma slice_from_app t suffix :
  slice_from (shape_last t) (t ++ suffix) = suffix.
Proof.
  unfold slice_from, shape_last.
  destruct (Z.ltb_spec (Z.of_nat (length t)) 0) as [? | _]; [lia |].
  rewrite length_app.
  replace (Z.to_nat _) with (length t) by lia.
  apply drop_app_length.
Qed.

Lemma shape_last_tokens (k : nat) t :
  (k <= length t)%nat -> shape_last (last_tokens k t) = Z.of_nat k.
Proof.
  unfold shape_last, last_tokens. rewrite length_drop. lia.
Qed.

Lemma enforce_budget_within m ids :
  shape_last ids <= m -> enforce_budget m ids = ids.
Proof.
  unfold enforce_budget. intros H.
  destruct (Z.gtb_spec (shape_last ids) m) as [? | _]; [lia | reflexivity].
Qed.

(** Above a positive limit the row keeps [ceil (m / 2)] tokens, written
    here [(m + 1) / 2]. *)
Lemma enforce_budget_over m ids :
  0 < m -> shape_last ids > m ->
  enforce_budget m ids = last_tokens (Z.to_nat ((m + 1) / 2)) ids
  /\ shape_last (enforce_budget m ids) = (m + 1) / 2.
Proof.
  intros Hm Hover. unfold enforce_budget.
  destruct (Z.gtb_spec (shape_last ids) m) as [_ | ?]; [| lia].
  assert (Hdiv : (- m) / 2 = - ((m + 1) / 2)) by (Z.div_mod_to_equations; lia).
  assert (Hc : 0 < (m + 1) / 2 <= shape_last ids) by (Z.div_mod_to_equations; lia).
  rewrite Hdiv, slice_from_neg by exact Hc.
  split; [reflexivity |].
  rewrite shape_last_tokens; [lia |].
  unfold shape_last in Hc. lia.
Qed.

(** After the limit is enforced the row is the old one or fits. *)
Lemma enforce_budget_fits m ids :
  0 <= m ->
  enforce_budget m ids = ids \/ shape_last (enforce_budget m ids) <= m.
Proof.
  intros Hm.
  destruct (Z.le_gt_cases (shape_last ids) m) as [Hle | Hgt].
  - left. by apply enforce_budget_within.
  - destruct (Z.eq_dec m 0) as [-> | Hne].
    + left. unfold enforce_budget.
      destruct (shape_last ids >? 0); [apply slice_from_zero | reflexivity].
    + right.
      destruct (enforce_budget_over m ids) as [_ ->]; [lia | lia |].
      Z.div_mod_to_equations; lia.
Qed.

Lemma enforce_budget_nonempty m ids :
  0 < m -> ids <> [] -> enforce_budget m ids <> [].
Proof.
  intros Hm Hne.
  destruct (Z.le_gt_cases (shape_last ids) m) as [Hle | Hgt].
  - by rewrite enforce_budget_within.
  - destruct (enforce_budget_over m ids) as [_ Hlen]; [lia | lia |].
    intros Hnil. rewrite Hnil in Hlen. unfold shape_last in Hlen.
    simpl in Hlen. Z.div_mod_to_equations; lia.
Qed.

End Truncation.

(** C1, as amended.  For every even limit [max_length >= 2], the configured
    1024 among them: a row longer than the limit becomes exactly its last
    [max_length // 2] tokens and so has length [max_length // 2]; a row at
    or below the limit is left unchanged. *)
Theorem enforce_budget_halving_even (max_length : Z) (ids : tensor) :
  0 < max_length -> Z.even max_length = true ->
  halving_truncation max_length ids.
Proof.
  intros Hpos Heven. apply Z.even_spec in Heven as [k ->].
  split.
  - intros Hover.
    destruct (enforce_budget_over (2 * k) ids) as [Heq Hlen]; [lia | lia |].
    replace ((2 * k + 1) / 2) with (2 * k / 2) in *
      by (Z.div_mod_to_equations; lia).
    by split.
  - apply enforce_budget_within.
Qed.

(** C9.  For every limit that is not negative, the configured 1024 among
    them, enforcing the limit twice gives the same row as enforcing it
    once. *)
Theorem enforce_budget_idempotent (max_length : Z) (ids : tensor) :
  0 <= max_length ->
  enforce_budget max_length (enforce_budget max_length ids)
  = enforce_budget max_length ids.
Proof.
  intros Hm.
  destruct (enforce_budget_fits max_length ids Hm) as [Hsame | Hfits].
  - by rewrite !Hsame.
  - by apply enforce_budget_within.
Qed.

(** ** [update_chat] and [send_message], step by step *)

Lemma tags_You : tags !! lit "You" = Some (lit "you", lit "#2c3e50").
Proof. vm_compute. reflexivity. Qed.

Lemma tags_AI : tags !! lit "AI" = Some (lit "ai", lit "#2980b9").
Proof. vm_compute. reflexivity. Qed.

Lemma tags_System : tags !! lit "System" = Some (lit "sys", lit "#e74c3c").
Proof. vm_compute. reflexivity. Qed.

Lemma tags_other (sender : str) :
  sender ∉ [lit "You"; lit "AI"; lit "System"] -> tags !! sender = None.
Proof.
  intros Hnot. unfold tags.
  rewrite !lookup_insert_ne, lookup_empty; [done | ..];
    intros <-; apply Hnot; set_solver.
Qed.

Lemma tags_known (sender : str) (v : str * str) :
  tags !! sender = Some v -> sender ∈ [lit "You"; lit "AI"; lit "System"].
Proof.
  intros Hv.
  destruct (decide (sender ∈ [lit "You"; lit "AI"; lit "System"])) as [? | Hnot];
    [done |].
  rewrite tags_other in Hv by done. discriminate.
Qed.

Lemma update_chat_known (sender tag color message : str) (app : ChatbotApp) :
  tags !! sender = Some (tag, color) ->
  update_chat sender message app = (show sender tag color message app, Ok tt).
Proof.
  intros Htag.
  unfold update_chat, mbind, M_bind, display, modify, subscript.
  rewrite Htag. reflexivity.
Qed.

Lemma update_chat_unknown (sender message : str) (app : ChatbotApp) :
  tags !! sender = None ->
  update_chat sender message app
  = (set_chat_display (text_config normal (chat_display app)) app,
     Raise (KeyError sender)).
Proof.
  intros Htag.
  unfold update_chat, mbind, M_bind, display, modify, subscript.
  rewrite Htag. reflexivity.
Qed.

Lemma shown_show (sender tag color message : str) (app : ChatbotApp) :
  shown (show sender tag color message app)
  = shown app ++ rendered sender tag message.
Proof.
  unfold shown, show, render_message, rendered. simpl.
  by rewrite <- app_assoc.
Qed.

Lemma handler_run (e : exn) (app : ChatbotApp) :
  update_chat (lit "System") (lit "Error: " ++ exn_str e) app
  = (show_error e app, Ok tt).
Proof. unfold show_error. by rewrite (update_chat_known _ _ _ _ _ tags_System). Qed.

Lemma respond_outcome (app : ChatbotApp) (user_msg : str) (app1 : ChatbotApp) :
  tokenizer app1 = tokenizer app -> model app1 = model app ->
  chat_history_ids app1 = chat_history_ids app ->
  max_history_length app1 = max_history_length app ->
  user_msg = strip (user_input app) -> user_msg <> [] ->
  try_except (respond user_msg)
    (fun e => update_chat (lit "System") (lit "Error: " ++ exn_str e)) app1
  = (match outcome_of app with
     | Ignored => app1
     | EncodeFailed e => handled e app1
     | Failed input e =>
         handled e (log_generate_call input (decoding_config app) app1)
     | Replied input response reply =>
         show (lit "AI") (lit "ai") (lit "#2980b9") reply
           (set_chat_history_ids
              (Some (enforce_budget (max_history_length app) response))
              (log_generate_call input (decoding_config app) app1))
     end, returned (outcome_of app)).
Proof.
  intros Htok Hmdl Hhist Hmax -> Hne.
  unfold outcome_of. destruct (decide _) as [? | _]; [done |].
  unfold try_except, respond, tokenizer_encode, tokenizer_decode,
    model_generate, mbind, M_bind, gets, modify, call, raise.
  cbn [fst snd]. rewrite Htok.
  destruct (encode _ _) as [new_input | e].
  2: { unfold handled, returned.
       destruct (is_Exception e); [apply handler_run | reflexivity]. }
  cbn. rewrite Hhist, Hmax, Hmdl, Htok.
  fold (decoding_config app).
  destruct (generate _ _ _) as [response | e].
  2: { unfold handled, returned.
       destruct (is_Exception e); [apply handler_run | reflexivity]. }
  destruct (decode _ _ _) as [reply | e].
  2: { unfold handled, returned.
       destruct (is_Exception e); [apply handler_run | reflexivity]. }
  by rewrite (update_chat_known _ _ _ _ _ tags_AI).
Qed.

Lemma outcome_of_Ignored (app : ChatbotApp) :
  outcome_of app = Ignored <-> strip (user_input app) = [].
Proof.
  unfold outcome_of.
  destruct (decide _) as [Hblank | Hne]; [done |].
  split; [| done].
  by repeat case_match.
Qed.

Lemma send_message_outcome (app : ChatbotApp) :
  send_message app = (after (outcome_of app) app, returned (outcome_of app)).
Proof.
  unfold send_message, mbind, M_bind, gets, modify.
  destruct (decide _) as [Hblank | Hne].
  - apply outcome_of_Ignored in Hblank. by rewrite Hblank.
  - rewrite (update_chat_known _ _ _ _ _ tags_You).
    fold (echoed app).
    rewrite (respond_outcome app (strip (user_input app)) (echoed app)
               eq_refl eq_refl eq_refl eq_refl eq_refl Hne).
    destruct (outcome_of app) eqn:Ho; try reflexivity.
    by apply outcome_of_Ignored in Ho.
Qed.

Lemma run_turn_outcome (text : str) (app : ChatbotApp) :
  run_turn text app
  = after (outcome_of (set_user_input text app)) (set_user_input text app).
Proof. unfold run_turn. by rewrite send_message_outcome. Qed.

(** ** Single turns *)

Lemma shown_set_chat_history_ids h (app : ChatbotApp) :
  shown (set_chat_history_ids h app) = shown app.
Proof. reflexivity. Qed.

Lemma shown_log_generate_call ids cfg (app : ChatbotApp) :
  shown (log_generate_call ids cfg app) = shown app.
Proof. reflexivity. Qed.

Lemma shown_echoed (app : ChatbotApp) :
  shown (echoed app)
  = shown app ++ rendered (lit "You") (lit "you") (strip (user_input app)).
Proof. unfold echoed. by rewrite shown_show. Qed.

Lemma shown_show_error (e : exn) (app : ChatbotApp) :
  shown (show_error e app)
  = shown app ++ rendered (lit "System") (lit "sys") (lit "Error: " ++ exn_str e).
Proof. unfold show_error. by rewrite shown_show. Qed.

Lemma shown_handled (e : exn) (app : ChatbotApp) :
  shown (handled e app)
  = shown app
    ++ (if is_Exception e
        then rendered (lit "System") (lit "sys") (lit "Error: " ++ exn_str e)
        else []).
Proof.
  unfold handled. destruct (is_Exception e);
    [apply shown_show_error | by rewrite app_nil_r].
Qed.

Lemma after_attributes (o : outcome) (app : ChatbotApp) :
  tokenizer (after o app) = tokenizer app
  /\ model (after o app) = model app
  /\ max_history_length (after o app) = max_history_length app.
Proof. destruct o; unfold after, handled; by try destruct (is_Exception e). Qed.

Lemma tokenizer_after (o : outcome) (app : ChatbotApp) :
  tokenizer (after o app) = tokenizer app.
Proof. apply after_attributes. Qed.

Lemma chat_history_ids_after (o : outcome) (app : ChatbotApp) :
  chat_history_ids (after o app)
  = match o with
    | Replied _ response _ =>
        Some (enforce_budget (max_history_length app) response)
    | _ => chat_history_ids app
    end.
Proof. destruct o; unfold after, handled; by try destruct (is_Exception e). Qed.

Lemma context_after (o : outcome) (app : ChatbotApp) :
  context (after o app)
  = match o with
    | Replied _ response _ => enforce_budget (max_history_length app) response
    | _ => context app
    end.
Proof. unfold context. rewrite chat_history_ids_after. by destruct o. Qed.

Lemma generate_calls_after (o : outcome) (app : ChatbotApp) :
  generate_calls (after o app)
  = generate_calls app
    ++ match o with
       | Failed input _ | Replied input _ _ => [(input, decoding_config app)]
       | _ => []
       end.
Proof.
  destruct o; unfold after, handled; try destruct (is_Exception e);
    simpl; by rewrite ?app_nil_r.
Qed.

Lemma user_input_after (o : outcome) (app : ChatbotApp) :
  user_input (after o app)
  = match o with
    | Ignored => user_input app
    | _ => []
    end.
Proof. destruct o; unfold after, handled; by try destruct (is_Exception e). Qed.

Lemma chat_display_after (o : outcome) (app : ChatbotApp) :
  chat_display (after o app)
  = match o with
    | Ignored => chat_display app
    | EncodeFailed e | Failed _ e =>
        let w := render_message (lit "You") (lit "you") (lit "#2c3e50")
                   (strip (user_input app)) (chat_display app) in
        if is_Exception e
        then render_message (lit "System") (lit "sys") (lit "#e74c3c")
               (lit "Error: " ++ exn_str e) w
        else w
    | Replied _ _ reply =>
        render_message (lit "AI") (lit "ai") (lit "#2980b9") reply
          (render_message (lit "You") (lit "you") (lit "#2c3e50")
             (strip (user_input app)) (chat_display app))
    end.
Proof. destruct o; unfold after, handled; by try destruct (is_Exception e). Qed.

Lemma shown_after (o : outcome) (app : ChatbotApp) :
  shown (after o app)
  = shown app
    ++ match o with
       | Ignored => []
       | _ => turn_chunks (strip (user_input app), answer_of o)
       end.
Proof.
  destruct o; cbn [after answer_of turn_chunks fst snd].
  - by rewrite app_nil_r.
  - rewrite shown_handled, shown_echoed, <- app_assoc.
    by destruct (is_Exception e).
  - rewrite shown_handled, shown_log_generate_call, shown_echoed, <- app_assoc.
    by destruct (is_Exception e).
  - by rewrite shown_show, shown_set_chat_history_ids,
      shown_log_generate_call, shown_echoed, <- app_assoc.
Qed.

Lemma outcome_of_Replied (app : ChatbotApp) input response reply :
  outcome_of app = Replied input response reply ->
  exists new_input,
    encode (tokenizer app) (strip (user_input app) ++ eos_token (tokenizer app))
      = Ok new_input
    /\ input = generation_input (chat_history_ids app) new_input
    /\ generate (model app) input (decoding_config app) = Ok response
    /\ decode (tokenizer app) (slice_from (shape_last input) response) true
       = Ok reply.
Proof.
  unfold outcome_of. intros Ho.
  destruct (decide _); [discriminate |].
  destruct (encode _ _) as [new_input |] eqn:He; [| discriminate].
  destruct (generate _ _ _) as [response' |] eqn:Hg; [| discriminate].
  destruct (decode _ _ _) as [reply' |] eqn:Hd; [| discriminate].
  injection Ho as <- <- <-. by exists new_input.
Qed.

Lemma outcome_of_raises (app : ChatbotApp) (e : exn) :
  strip (user_input app) <> [] ->
  turn_raises app (strip (user_input app)) e ->
  outcome_of app = EncodeFailed e
  \/ exists input, outcome_of app = Failed input e.
Proof.
  intros Hne Hraise. unfold outcome_of.
  destruct (decide _) as [? | _]; [done |].
  destruct Hraise as [He | new_input He Hg | new_input response He Hg Hd];
    rewrite He; [by left | right ..].
  - rewrite Hg. by eexists.
  - rewrite Hg, Hd. by eexists.
Qed.

(** C6.  When the entry holds only whitespace, [send_message] returns the
    object as it found it: the context is not touched, nothing is added to
    the display, the model is not called, and no exception is raised. *)
Theorem blank_input_noop (text : str) (app : ChatbotApp) :
  strip text = [] ->
  send_message (set_user_input text app) = (set_user_input text app, Ok tt)
  /\ chat_history_ids (run_turn text app) = chat_history_ids app
  /\ shown (run_turn text app) = shown app
  /\ generate_calls (run_turn text app) = generate_calls app.
Proof.
  intros Hblank.
  assert (Ho : outcome_of (set_user_input text app) = Ignored)
    by by apply outcome_of_Ignored.
  unfold run_turn. rewrite send_message_outcome, Ho. done.
Qed.

(** C4.  In a turn whose text is not blank and is encoded to [new_input],
    the model is called once, and its input is [new_input] alone when the
    context is empty and the context followed by [new_input] otherwise. *)
Theorem generation_input_continuity (app : ChatbotApp) (user_msg : str)
    (new_input : tensor) :
  strip (user_input app) = user_msg -> user_msg <> [] ->
  encode (tokenizer app) (user_msg ++ eos_token (tokenizer app)) = Ok new_input ->
  exists input,
    generate_calls (send_message app).1
      = generate_calls app ++ [(input, decoding_config app)]
    /\ (context app = [] -> input = new_input)
    /\ (context app <> [] -> input = context app ++ new_input).
Proof.
  intros <- Hne He.
  exists (generation_input (chat_history_ids app) new_input). split.
  - rewrite send_message_outcome. cbn [fst]. rewrite generate_calls_after.
    unfold outcome_of.
    destruct (decide _) as [? | _]; [done |].
    rewrite He. cbv zeta.
    destruct (generate _ _ _); [destruct (decode _ _ _) |]; reflexivity.
  - unfold context, generation_input, cat.
    destruct (chat_history_ids app) as [h |]; simpl; [| done].
    split; [by intros -> | done].
Qed.

(** C5.  Let the generation input have length [response_start] and let the
    model return that input followed by [suffix].  Then the reply is the
    decoding, special tokens skipped, of [suffix] and of nothing else: when
    that decoding gives [reply], the turn shows [reply] under the label
    AI. *)
Theorem slice_correctness (app : ChatbotApp) (user_msg : str)
    (new_input suffix : tensor) (reply : str) :
  strip (user_input app) = user_msg -> user_msg <> [] ->
  encode (tokenizer app) (user_msg ++ eos_token (tokenizer app)) = Ok new_input ->
  generate (model app) (generation_input (chat_history_ids app) new_input)
    (decoding_config app)
    = Ok (generation_input (chat_history_ids app) new_input ++ suffix) ->
  decode (tokenizer app) suffix true = Ok reply ->
  slice_from (shape_last (generation_input (chat_history_ids app) new_input))
    (generation_input (chat_history_ids app) new_input ++ suffix) = suffix
  /\ shown (send_message app).1
     = shown app ++ rendered (lit "You") (lit "you") user_msg
                 ++ rendered (lit "AI") (lit "ai") reply.
Proof.
  intros <- Hne He Hg Hd. split; [apply slice_from_app |].
  rewrite send_message_outcome. unfold outcome_of.
  destruct (decide _) as [? | _]; [done |].
  rewrite He. cbv zeta. rewrite Hg, slice_from_app, Hd.
  cbn [fst after]. rewrite shown_show, shown_set_chat_history_ids,
    shown_log_generate_call, shown_echoed.
  by rewrite <- app_assoc.
Qed.

(** C3, as amended.  When the encoding, the generation or the decoding of a
    turn raises, the context after the turn is the one from before it.  When
    what was raised is an instance of [Exception], [send_message] returns
    normally and the display gains the echo of the user's text under the
    label You followed by one system message that carries the description of
    the failure.  What is not an instance of [Exception] leaves
    [send_message], and the display gains the echo alone. *)
Theorem failed_turn_isolated (app : ChatbotApp) (user_msg : str) (e : exn) :
  strip (user_input app) = user_msg -> user_msg <> [] ->
  turn_raises app user_msg e ->
  chat_history_ids (send_message app).1 = chat_history_ids app
  /\ (is_Exception e = true ->
      (send_message app).2 = Ok tt
      /\ shown (send_message app).1
         = shown app ++ rendered (lit "You") (lit "you") user_msg
                     ++ rendered (lit "System") (lit "sys")
                          (lit "Error: " ++ exn_str e))
  /\ (is_Exception e = false ->
      (send_message app).2 = Raise e
      /\ shown (send_message app).1
         = shown app ++ rendered (lit "You") (lit "you") user_msg).
Proof.
  intros <- Hne Hraise.
  rewrite send_message_outcome. cbn [fst snd].
  rewrite chat_history_ids_after, shown_after.
  destruct (outcome_of_raises app e Hne Hraise) as [-> | [input ->]];
    cbn [returned answer_of turn_chunks fst snd];
    (split; [reflexivity |]);
    split; intros ->; cbn [from_option answer_chunks];
    by rewrite ?app_nil_r.
Qed.

(** C10.  [update_chat] renders a message exactly when the sender is You,
    AI or System.  For these it adds the label and the message to the
    display and returns; for every other sender it raises [KeyError] on the
    dictionary lookup and the text of the display is what it was. *)
Theorem update_chat_labels (sender message : str) (app : ChatbotApp) :
  (sender ∈ [lit "You"; lit "AI"; lit "System"] ->
     exists app' tag,
       update_chat sender message app = (app', Ok tt)
       /\ shown app' = shown app ++ rendered sender tag message)
  /\ (sender ∉ [lit "You"; lit "AI"; lit "System"] ->
     exists app',
       update_chat sender message app = (app', Raise (KeyError sender))
       /\ shown app' = shown app).
Proof.
  split.
  - intros Hin.
    assert (Htag : exists tag color, tags !! sender = Some (tag, color)).
    { apply elem_of_cons in Hin as [-> | Hin]; [by eexists _, _; apply tags_You |].
      apply elem_of_cons in Hin as [-> | Hin]; [by eexists _, _; apply tags_AI |].
      apply list_elem_of_singleton in Hin as ->. eexists _, _; apply tags_System. }
    destruct Htag as (tag & color & Htag).
    exists (show sender tag color message app), tag.
    split; [by apply update_chat_known | apply shown_show].
  - intros Hnot. eexists. split.
    + apply update_chat_unknown. by apply tags_other.
    + reflexivity.
Qed.

(** ** Sessions *)

Lemma enforce_budget_le (m : Z) (ids : tensor) :
  0 < m -> shape_last (enforce_budget m ids) <= m.
Proof.
  intros Hm.
  destruct (Z.le_gt_cases (shape_last ids) m) as [Hle | Hgt].
  - by rewrite enforce_budget_within.
  - destruct (enforce_budget_over m ids) as [_ ->]; [lia | lia |].
    Z.div_mod_to_equations; lia.
Qed.

Section Session.

Variables (tok : Tokenizer) (mdl : Model).

Lemma new_app_attributes :
  model (new_app tok mdl) = mdl
  /\ eos_token_id (tokenizer (new_app tok mdl)) = eos_token_id tok
  /\ max_history_length (new_app tok mdl) = 1024
  /\ chat_history_ids (new_app tok mdl) = None
  /\ generate_calls (new_app tok mdl) = [].
Proof.
  unfold new_app, init, setup_ui, mbind, M_bind, modify.
  rewrite (update_chat_known _ _ _ _ _ tags_AI).
  by destruct (pad_token tok).
Qed.

(** What no turn changes. *)
Lemma reachable_attributes (app0 app : ChatbotApp) :
  reachable_from app0 app ->
  model app = model app0
  /\ eos_token_id (tokenizer app) = eos_token_id (tokenizer app0)
  /\ max_history_length app = max_history_length app0.
Proof.
  induction 1 as [| app text _ (IHm & IHt & IHl)]; [done |].
  rewrite run_turn_outcome.
  destruct (after_attributes (outcome_of (set_user_input text app))
              (set_user_input text app)) as (-> & -> & ->).
  done.
Qed.

Lemma reachable_trans (app0 app1 app2 : ChatbotApp) :
  reachable_from app0 app1 -> reachable_from app1 app2 ->
  reachable_from app0 app2.
Proof.
  intros H01 H12. induction H12; [done | by constructor].
Qed.

Lemma reachable_limit (app : ChatbotApp) :
  reachable_from (new_app tok mdl) app -> max_history_length app = 1024.
Proof.
  intros Hr. apply reachable_attributes in Hr as (_ & _ & ->).
  apply new_app_attributes.
Qed.

End Session.

(** C2.  After every turn of every session that starts from a new
    application, the context holds at most 1024 tokens, whatever the model
    returns. *)
Theorem budget_invariant (tok : Tokenizer) (mdl : Model) (app : ChatbotApp) :
  reachable_from (new_app tok mdl) app ->
  shape_last (context app) <= 1024.
Proof.
  intros Hr. induction Hr as [| app text Hr IH].
  - unfold context.
    by destruct (new_app_attributes tok mdl) as (_ & _ & _ & -> & _).
  - rewrite run_turn_outcome, context_after.
    destruct (outcome_of _); try exact IH.
    change (max_history_length (set_user_input text app))
      with (max_history_length app).
    rewrite (reachable_limit tok mdl app Hr).
    by apply enforce_budget_le.
Qed.

(** C8.  In every session that starts from a new application, every call
    of [model.generate] was made with [max_length = 1024], the tokenizer's
    end-of-text id as [pad_token_id], [temperature = 0.7] and
    [repetition_penalty = 1.2]. *)
Theorem fixed_decoding_configuration (tok : Tokenizer) (mdl : Model)
    (app : ChatbotApp) :
  reachable_from (new_app tok mdl) app ->
  Forall (fun c : tensor * GenerationConfig =>
            c.2 = {| max_length := 1024; pad_token_id := eos_token_id tok;
                     temperature := 7 # 10; repetition_penalty := 12 # 10 |})
    (generate_calls app).
Proof.
  intros Hr. induction Hr as [| app text Hr IH].
  - destruct (new_app_attributes tok mdl) as (_ & _ & _ & _ & ->).
    constructor.
  - rewrite run_turn_outcome, generate_calls_after.
    apply Forall_app. split; [exact IH |].
    assert (Hcfg : decoding_config (set_user_input text app)
                   = {| max_length := 1024; pad_token_id := eos_token_id tok;
                        temperature := 7 # 10; repetition_penalty := 12 # 10 |}).
    { unfold decoding_config.
      change (max_history_length (set_user_input text app))
        with (max_history_length app).
      change (tokenizer (set_user_input text app)) with (tokenizer app).
      rewrite (reachable_limit tok mdl app Hr).
      destruct (reachable_attributes _ _ Hr) as (_ & -> & _).
      by destruct (new_app_attributes tok mdl) as (_ & -> & _). }
    destruct (outcome_of _); repeat constructor; exact Hcfg.
Qed.

(** C7, as amended.  Let the model return at least as many tokens as it is
    given.  Once the context of a session holds a token, it holds a token
    after every later turn, whether that turn is blank, fails or succeeds. *)
Theorem active_forever (tok : Tokenizer) (mdl : Model) (app app' : ChatbotApp) :
  invoker_contract mdl ->
  reachable_from (new_app tok mdl) app ->
  active app ->
  reachable_from app app' ->
  active app'.
Proof.
  intros Hcontract Hr Hactive Hlater.
  induction Hlater as [| app' text Hlater IH]; [exact Hactive |].
  assert (Hr' : reachable_from (new_app tok mdl) app')
    by (by eapply reachable_trans).
  unfold active in *. rewrite run_turn_outcome, context_after.
  destruct (outcome_of _) as [| | | input response reply] eqn:Ho; try exact IH.
  apply outcome_of_Replied in Ho as (new_input & _ & -> & Hg & _).
  change (max_history_length (set_user_input text app'))
    with (max_history_length app').
  rewrite (reachable_limit tok mdl app' Hr').
  apply enforce_budget_nonempty; [lia |].
  change (model (set_user_input text app')) with (model app') in Hg.
  change (chat_history_ids (set_user_input text app'))
    with (chat_history_ids app') in Hg.
  destruct (reachable_attributes _ _ Hr') as (Hmdl & _ & _).
  rewrite Hmdl in Hg.
  destruct (new_app_attributes tok mdl) as (Hmdl0 & _). rewrite Hmdl0 in Hg.
  apply Hcontract in Hg. intros ->.
  unfold context in IH. unfold generation_input, cat in Hg.
  destruct (chat_history_ids app') as [h |]; [| done].
  simpl in IH, Hg. rewrite length_app in Hg.
  destruct h; [done | simpl in Hg; lia].
Qed.

Lemma toy_model_contract : invoker_contract toy_model.
Proof.
  intros ids cfg out. unfold toy_model. simpl.
  repeat (destruct (decide _); [discriminate |]).
  intros [= <-]. rewrite length_app. lia.
Qed.

(** * Further properties of the code *)

(** ** The history limit, lines 174-175 *)

Lemma slice_from_suffix (start : Z) (t : tensor) : slice_from start t `suffix_of` t.
Proof.
  unfold slice_from. eexists. symmetry. apply take_drop.
Qed.

(** X1.  Whatever the limit, enforcing it only removes tokens from the
    front: the result is a suffix of the row it was given. *)
Theorem enforce_budget_suffix (max_length : Z) (ids : tensor) :
  enforce_budget max_length ids `suffix_of` ids.
Proof.
  unfold enforce_budget.
  destruct (shape_last ids >? max_length); [apply slice_from_suffix | done].
Qed.

(** X2.  For every positive limit, odd ones included, a row longer than the
    limit keeps its last [(max_length + 1) // 2] tokens: the start index
    [(-max_length) // 2] rounds away from zero. *)
Theorem enforce_budget_keeps_upper_half (max_length : Z) (ids : tensor) :
  0 < max_length -> shape_last ids > max_length ->
  enforce_budget max_length ids
    = last_tokens (Z.to_nat ((max_length + 1) / 2)) ids
  /\ shape_last (enforce_budget max_length ids) = (max_length + 1) / 2.
Proof. apply enforce_budget_over. Qed.

(** X3.  For every positive limit the row fits the limit afterwards, and a
    row that held a token still holds one. *)
Theorem enforce_budget_positive_limit (max_length : Z) (ids : tensor) :
  0 < max_length ->
  shape_last (enforce_budget max_length ids) <= max_length
  /\ (ids <> [] -> enforce_budget max_length ids <> []).
Proof.
  intros Hm. split; [by apply enforce_budget_le |].
  by apply enforce_budget_nonempty.
Qed.

(** X4.  A limit of zero removes nothing: the start index is [0 // 2 = 0]
    and the slice from 0 is the whole row, so a row with tokens stays above
    the limit. *)
Theorem enforce_budget_zero_limit (ids : tensor) :
  enforce_budget 0 ids = ids.
Proof.
  unfold enforce_budget.
  destruct (shape_last ids >? 0); [apply slice_from_zero | reflexivity].
Qed.

(** ** [strip], line 135 *)

Section Strip.

Implicit Types (s l r : str) (c : char).

Lemma lstrip_decompose s : exists l, s = l ++ lstrip s /\ Forall (fun c => is_space c = true) l.
Proof.
  induction s as [| c s (l & Hs & Hl)]; simpl.
  - by exists [].
  - destruct (is_space c) eqn:Hc.
    + exists (c :: l). split; [by rewrite Hs at 1 | by constructor].
    + by exists [].
Qed.

Lemma lstrip_head s c : head (lstrip s) = Some c -> is_space c = false.
Proof.
  induction s as [| c' s IH]; simpl; [done |].
  destruct (is_space c') eqn:Hc; [exact IH |].
  simpl. by intros [= <-].
Qed.

Lemma lstrip_blank s : Forall (fun c => is_space c = true) s -> lstrip s = [].
Proof.
  induction 1 as [| c s Hc _ IH]; simpl; [done |].
  by rewrite Hc.
Qed.

Lemma rstrip_decompose s : exists r, s = rstrip s ++ r /\ Forall (fun c => is_space c = true) r.
Proof.
  unfold rstrip.
  destruct (lstrip_decompose (reverse s)) as (l & Hs & Hl).
  exists (reverse l). split; [| by apply Forall_reverse].
  rewrite <- reverse_app, <- Hs. by rewrite reverse_involutive.
Qed.

Lemma rstrip_last s c : last (rstrip s) = Some c -> is_space c = false.
Proof. unfold rstrip. rewrite last_reverse. apply lstrip_head. Qed.

Lemma rstrip_head s : rstrip s <> [] -> head (rstrip s) = head s.
Proof.
  intros Hne. destruct (rstrip_decompose s) as (r & Hs & _).
  rewrite Hs at 2. by destruct (rstrip s).
Qed.

Lemma strip_decompose s :
  exists l r, s = l ++ strip s ++ r /\ Forall (fun c => is_space c = true) l /\ Forall (fun c => is_space c = true) r.
Proof.
  unfold strip.
  destruct (lstrip_decompose s) as (l & Hl & Hbl).
  destruct (rstrip_decompose (lstrip s)) as (r & Hr & Hbr).
  exists l, r. by rewrite <- Hr.
Qed.

Lemma strip_trimmed s : strip s <> [] -> trimmed (strip s) = true.
Proof.
  intros Hne. unfold trimmed.
  destruct (head (strip s)) as [a |] eqn:Ha;
    [| by destruct (strip s)].
  destruct (last (strip s)) as [b |] eqn:Hb;
    [| by apply last_None in Hb].
  unfold strip in *.
  rewrite rstrip_head in Ha by done.
  apply lstrip_head in Ha. apply rstrip_last in Hb.
  by rewrite Ha, Hb.
Qed.

Lemma strip_nil_iff s : strip s = [] <-> Forall (fun c => is_space c = true) s.
Proof.
  split.
  - intros Hnil. destruct (strip_decompose s) as (l & r & Hs & Hl & Hr).
    rewrite Hs, Hnil. by apply Forall_app.
  - intros Hs. unfold strip. by rewrite lstrip_blank.
Qed.

End Strip.

(** ** [send_message], lines 131-180 *)

Lemma outcome_of_failed (app : ChatbotApp) (e : exn) :
  outcome_of app = EncodeFailed e
  \/ (exists input, outcome_of app = Failed input e) ->
  turn_raises app (strip (user_input app)) e.
Proof.
  unfold outcome_of.
  destruct (decide _); [by intros [? | [? ?]] |].
  destruct (encode _ _) as [new_input |] eqn:He.
  2: { intros [[= <-] | [? [=]]]. by apply encode_raises. }
  cbv zeta.
  destruct (generate _ _ _) as [response |] eqn:Hg.
  2: { intros [[=] | [? [= _ <-]]]. by eapply generate_raises. }
  destruct (decode _ _ _) as [reply |] eqn:Hd.
  2: { intros [[=] | [? [= _ <-]]]. by eapply decode_raises. }
  by intros [? | [? ?]].
Qed.

Lemma length_turn_chunks (x : str * option answer) :
  (2 <= length (turn_chunks x))%nat.
Proof. unfold turn_chunks, rendered. rewrite length_app. simpl. lia. Qed.

(** X5.  [send_message] lets no instance of [Exception] out, whatever the
    tokenizer and the model do: it returns normally, or it lets through
    something that is not an instance of [Exception] and that the encoding,
    the generation or the decoding of this turn raised.  In particular no
    [KeyError] comes from the labels it passes to [update_chat]. *)
Theorem send_message_lets_out_only_non_exceptions (app : ChatbotApp) :
  (send_message app).2 = Ok tt
  \/ exists e,
       (send_message app).2 = Raise e
       /\ is_Exception e = false
       /\ turn_raises app (strip (user_input app)) e.
Proof.
  rewrite send_message_outcome. cbn [snd].
  destruct (outcome_of app) as [| e | input e |] eqn:Ho; cbn [returned];
    try (by left);
    (destruct (is_Exception e) eqn:He; [by left | right]);
    exists e; (split; [done |]); (split; [done |]);
    apply outcome_of_failed; rewrite Ho; eauto.
Qed.

(** X6.  A turn leaves the application exactly as it was, the typed text
    still in the entry, if and only if every character of the text is
    whitespace. *)
Theorem turn_noop_iff_blank (text : str) (app : ChatbotApp) :
  run_turn text app = set_user_input text app
  <-> Forall (fun c => is_space c = true) text.
Proof.
  rewrite <- strip_nil_iff, run_turn_outcome. split.
  - intros Hsame.
    destruct (decide (strip text = [])) as [| Hne]; [done |].
    apply (f_equal (fun x => length (shown x))) in Hsame.
    rewrite shown_after, length_app in Hsame.
    destruct (outcome_of _) eqn:Ho;
      [by apply outcome_of_Ignored in Ho | ..];
      match type of Hsame with
      | context [turn_chunks ?x] => pose proof (length_turn_chunks x)
      end; lia.
  - intros Hblank.
    assert (Ho : outcome_of (set_user_input text app) = Ignored)
      by by apply outcome_of_Ignored.
    by rewrite Ho.
Qed.

(** X7.  A turn whose text is not blank first shows that text, without the
    whitespace around it, under the label You; the echoed text is not empty
    and neither starts nor ends with whitespace.  When [send_message]
    returns, exactly one answer follows the echo, a reply under AI or an
    error under System; when a raise leaves [send_message], which only
    something outside [Exception] does, the echo is all the turn shows. *)
Theorem turn_adds_echo_and_answer (text : str) (app : ChatbotApp) :
  strip text <> [] ->
  (exists l r,
     text = l ++ strip text ++ r
     /\ Forall (fun c => is_space c = true) l
     /\ Forall (fun c => is_space c = true) r)
  /\ trimmed (strip text) = true
  /\ match (send_message (set_user_input text app)).2 with
     | Ok _ =>
         exists a, shown (run_turn text app)
                   = shown app ++ exchange_chunks (strip text, a)
     | Raise e =>
         is_Exception e = false
         /\ shown (run_turn text app)
            = shown app ++ rendered (lit "You") (lit "you") (strip text)
     end.
Proof.
  intros Hne.
  split; [| split; [by apply strip_trimmed |]].
  - destruct (strip_decompose text) as (l & r & Htext & Hl & Hr).
    by exists l, r.
  - rewrite run_turn_outcome, send_message_outcome, shown_after. cbn [snd].
    change (shown (set_user_input text app)) with (shown app).
    cbn [user_input set_user_input].
    destruct (outcome_of _) as [| e | input e | input response reply] eqn:Ho;
      [by apply outcome_of_Ignored in Ho | ..];
      cbn [returned answer_of turn_chunks exchange_chunks fst snd];
      try destruct (is_Exception e) eqn:He;
      cbn [from_option]; rewrite ?app_nil_r; eauto.
Qed.

(** X8.  After a turn the entry is empty when the text was not blank, the
    turn having succeeded or failed, and still holds the text when it was
    blank. *)
Theorem entry_after_turn (text : str) (app : ChatbotApp) :
  user_input (run_turn text app)
  = if decide (strip text = []) then text else [].
Proof.
  rewrite run_turn_outcome, user_input_after.
  destruct (decide (strip text = [])) as [Hblank | Hne].
  - assert (Ho : outcome_of (set_user_input text app) = Ignored)
      by by apply outcome_of_Ignored.
    by rewrite Ho.
  - destruct (outcome_of _) eqn:Ho; try reflexivity.
    by apply outcome_of_Ignored in Ho.
Qed.

(** X9.  A turn calls the model at most once, with the configuration of
    the application, and does not call it when the encoding of the text
    raises. *)
Theorem model_called_at_most_once (text : str) (app : ChatbotApp) :
  (generate_calls (run_turn text app) = generate_calls app
   \/ exists input,
        generate_calls (run_turn text app)
        = generate_calls app ++ [(input, decoding_config app)])
  /\ (forall e,
        encode (tokenizer app) (strip text ++ eos_token (tokenizer app))
          = Raise e ->
        generate_calls (run_turn text app) = generate_calls app).
Proof.
  rewrite run_turn_outcome, generate_calls_after. split.
  - destruct (outcome_of _); simpl; rewrite ?app_nil_r; eauto.
  - intros e He. unfold outcome_of.
    destruct (decide _); [by rewrite app_nil_r |].
    cbn [user_input tokenizer set_user_input].
    rewrite He. by rewrite app_nil_r.
Qed.

Lemma outcome_of_Replied_intro (app : ChatbotApp) new_input response reply :
  strip (user_input app) <> [] ->
  encode (tokenizer app) (strip (user_input app) ++ eos_token (tokenizer app))
    = Ok new_input ->
  generate (model app) (generation_input (chat_history_ids app) new_input)
    (decoding_config app) = Ok response ->
  decode (tokenizer app)
    (slice_from (shape_last (generation_input (chat_history_ids app) new_input))
       response) true = Ok reply ->
  outcome_of app
  = Replied (generation_input (chat_history_ids app) new_input) response reply.
Proof.
  intros Hne He Hg Hd. unfold outcome_of.
  destruct (decide _); [done |].
  rewrite He. cbv zeta. by rewrite Hg, Hd.
Qed.

(** X10.  In a session, a turn whose three external calls succeed replaces
    the context by what the model returned, whole when it has at most 1024
    tokens and cut to its last 512 tokens otherwise.  The output is taken as
    it is: nothing checks that it starts with the input. *)
Theorem successful_turn_context (tok : Tokenizer) (mdl : Model)
    (app : ChatbotApp) (text : str) (new_input response : tensor) (reply : str) :
  reachable_from (new_app tok mdl) app ->
  strip text <> [] ->
  encode (tokenizer app) (strip text ++ eos_token (tokenizer app)) = Ok new_input ->
  generate (model app) (generation_input (chat_history_ids app) new_input)
    (decoding_config app) = Ok response ->
  decode (tokenizer app)
    (slice_from (shape_last (generation_input (chat_history_ids app) new_input))
       response) true = Ok reply ->
  chat_history_ids (run_turn text app)
  = Some (if decide (shape_last response <= 1024) then response
          else last_tokens 512 response).
Proof.
  intros Hr Hne He Hg Hd.
  rewrite run_turn_outcome.
  rewrite (outcome_of_Replied_intro (set_user_input text app)
             new_input response reply Hne He Hg Hd).
  cbn [after]. unfold show. cbn [chat_history_ids set_chat_display
    set_chat_history_ids max_history_length set_user_input]. f_equal.
  rewrite (reachable_limit tok mdl app Hr).
  destruct (decide _) as [Hle | Hgt].
  - by apply enforce_budget_within.
  - by destruct (enforce_budget_over 1024 response) as [-> _]; [lia | lia |].
Qed.

(** X11.  The context changes only in a turn that shows a reply of the
    model: if the context after a turn is not the one before, the turn added
    the user's text and a message under AI to the display. *)
Theorem context_changes_only_on_reply (text : str) (app : ChatbotApp) :
  chat_history_ids (run_turn text app) <> chat_history_ids app ->
  exists reply,
    shown (run_turn text app)
    = shown app ++ exchange_chunks (strip text, Reply reply).
Proof.
  rewrite run_turn_outcome, chat_history_ids_after, shown_after.
  destruct (outcome_of _) as [| e | input e | input response reply];
    try done.
  intros _. by exists reply.
Qed.

(** X12.  Once a context exists it is never discarded: no later turn, on
    any tokenizer and model, sets [chat_history_ids] back to [None]. *)
Theorem history_never_reset (app app' : ChatbotApp) :
  chat_history_ids app <> None ->
  reachable_from app app' ->
  chat_history_ids app' <> None.
Proof.
  intros Hsome Hr. induction Hr as [| app' text _ IH]; [done |].
  rewrite run_turn_outcome, chat_history_ids_after.
  by destruct (outcome_of _).
Qed.

(** ** [update_chat], lines 182-211 *)

Lemma tags_cases (sender tag color : str) :
  tags !! sender = Some (tag, color) ->
  (sender = lit "You" /\ tag = lit "you" /\ color = lit "#2c3e50")
  \/ (sender = lit "AI" /\ tag = lit "ai" /\ color = lit "#2980b9")
  \/ (sender = lit "System" /\ tag = lit "sys" /\ color = lit "#e74c3c").
Proof.
  intros Htag. pose proof (tags_known _ _ Htag) as Hin.
  apply elem_of_cons in Hin as [-> | Hin];
    [rewrite tags_You in Htag; injection Htag as <- <-; by left |].
  apply elem_of_cons in Hin as [-> | Hin];
    [rewrite tags_AI in Htag; injection Htag as <- <-; by right; left |].
  apply list_elem_of_singleton in Hin as ->.
  rewrite tags_System in Htag; injection Htag as <- <-. by right; right.
Qed.

Lemma tags_tag_not_msg (sender tag color : str) :
  tags !! sender = Some (tag, color) -> tag <> lit "msg".
Proof.
  intros [(_ & -> & _) | [(_ & -> & _) | (_ & -> & _)]]%tags_cases;
    by vm_compute.
Qed.

(** In the dictionary a tag belongs to one sender, hence to one colour. *)
Lemma tags_tag_color (s1 s2 tag c1 c2 : str) :
  tags !! s1 = Some (tag, c1) -> tags !! s2 = Some (tag, c2) ->
  s1 = s2 /\ c1 = c2.
Proof.
  intros [(-> & -> & ->) | [(-> & -> & ->) | (-> & -> & ->)]]%tags_cases
         [(-> & Ht & ->) | [(-> & Ht & ->) | (-> & Ht & ->)]]%tags_cases;
    try done; by vm_compute in Ht.
Qed.

Lemma chunks_render (sender tag color message : str) (w : ScrolledText) :
  chunks (render_message sender tag color message w)
  = chunks w ++ rendered sender tag message.
Proof. unfold render_message, rendered. simpl. by rewrite <- app_assoc. Qed.

Lemma state_render (sender tag color message : str) (w : ScrolledText) :
  state (render_message sender tag color message w) = disabled.
Proof. reflexivity. Qed.

Lemma tag_styles_render (sender tag color message : str) (w : ScrolledText) :
  tag <> lit "msg" ->
  tag_styles (render_message sender tag color message w)
  = <[lit "msg" := {| foreground := tag_styles w !! lit "msg" ≫= foreground;
                      font := arial None |}]>
      (<[tag := label_style color]> (tag_styles w)).
Proof.
  intros Hne. unfold render_message, text_tag_config, text_insert, text_config.
  cbn [state chunks tag_styles]. by rewrite lookup_insert_ne.
Qed.

(** X13.  For a sender that is not in the dictionary [update_chat] raises
    [KeyError] after it has made the display editable and before it has put
    it back: the widget is left in state [normal], with its text and its
    tag styles as they were, and nothing else of the application changes. *)
Theorem update_chat_unknown_leaves_editable (sender message : str)
    (app : ChatbotApp) :
  sender ∉ [lit "You"; lit "AI"; lit "System"] ->
  update_chat sender message app
  = (set_chat_display
       {| state := normal; chunks := chunks (chat_display app);
          tag_styles := tag_styles (chat_display app) |} app,
     Raise (KeyError sender)).
Proof.
  intros Hnot. rewrite update_chat_unknown by by apply tags_other.
  reflexivity.
Qed.

(** X14.  For a sender of the dictionary, with tag [tag] and colour
    [color], [update_chat] returns with the display disabled, whatever its
    state was; the tag of the label is styled bold in that colour, the tag
    [msg] gets the plain font and keeps the colour it had, and the style of
    every other tag is untouched. *)
Theorem update_chat_styles (sender tag color message : str) (app : ChatbotApp) :
  tags !! sender = Some (tag, color) ->
  let w := chat_display app in
  let w' := chat_display (update_chat sender message app).1 in
  (update_chat sender message app).2 = Ok tt
  /\ state w' = disabled
  /\ tag_styles w' !! tag = Some (label_style color)
  /\ tag_styles w' !! lit "msg"
     = Some {| foreground := tag_styles w !! lit "msg" ≫= foreground;
               font := arial None |}
  /\ forall t, t <> tag -> t <> lit "msg" ->
       tag_styles w' !! t = tag_styles w !! t.
Proof.
  intros Htag. cbv zeta.
  rewrite (update_chat_known _ _ _ _ _ Htag). cbn [fst snd].
  pose proof (tags_tag_not_msg _ _ _ Htag) as Hne.
  unfold show. cbn [chat_display set_chat_display].
  rewrite tag_styles_render by done.
  split; [done |]. split; [done |].
  split; [by rewrite lookup_insert_ne, lookup_insert_eq |].
  split; [by rewrite lookup_insert_eq |].
  intros t Ht Hmsg. by rewrite !lookup_insert_ne.
Qed.

(** ** The display over a session *)

Lemma new_app_display (tok : Tokenizer) (mdl : Model) :
  chat_display (new_app tok mdl)
  = render_message (lit "AI") (lit "ai") (lit "#2980b9")
      (lit "Hello! How can I help you today?") fresh_display.
Proof.
  unfold new_app, init, setup_ui, mbind, M_bind, modify.
  by rewrite (update_chat_known _ _ _ _ _ tags_AI).
Qed.

(** X15.  In every state of a session the display is disabled: between two
    calls of [send_message] the user cannot edit the conversation. *)
Theorem display_stays_disabled (tok : Tokenizer) (mdl : Model)
    (app : ChatbotApp) :
  reachable_from (new_app tok mdl) app ->
  state (chat_display app) = disabled.
Proof.
  induction 1 as [| app text _ IH].
  - by rewrite new_app_display.
  - rewrite run_turn_outcome, chat_display_after.
    destruct (outcome_of _) as [| e | input e |]; cbv zeta;
      by try destruct (is_Exception e).
Qed.

(** X16.  The display only grows: what it showed at some point of a session
    is a prefix of what it shows at every later point, so no message is ever
    removed or rewritten. *)
Theorem display_append_only (app app' : ChatbotApp) :
  reachable_from app app' ->
  shown app `prefix_of` shown app'.
Proof.
  induction 1 as [| app' text _ IH]; [done |].
  rewrite run_turn_outcome, shown_after.
  etrans; [exact IH |]. by apply prefix_app_r.
Qed.

Lemma session_snoc (texts : list str) (text : str) (app : ChatbotApp) :
  session (texts ++ [text]) app = run_turn text (session texts app).
Proof. unfold session. by rewrite foldl_app. Qed.

Lemma spoken_snoc (texts : list str) (text : str) :
  spoken (texts ++ [text])
  = spoken texts ++ (if decide (strip text = []) then [] else [strip text]).
Proof.
  unfold spoken. rewrite fmap_app, filter_app. f_equal.
  change (strip <$> [text]) with [strip text].
  rewrite filter_cons, filter_nil.
  by destruct (decide (strip text = [])); destruct (decide _).
Qed.

Lemma spoken_trimmed (texts : list str) :
  Forall (fun s => trimmed s = true) (spoken texts).
Proof.
  apply Forall_forall. intros s [Hne Hin]%list_elem_of_filter.
  apply list_elem_of_fmap in Hin as (text & -> & _).
  by apply strip_trimmed.
Qed.

Lemma session_reachable (texts : list str) (app : ChatbotApp) :
  reachable_from app (session texts app).
Proof.
  induction texts as [| text texts IH] using rev_ind; [constructor |].
  rewrite session_snoc. by constructor.
Qed.

(** X17.  The display of a session is its transcript: the greeting, then
    for each turn whose text is not blank, in the order of the turns, that
    text stripped under You followed by at most one answer, a reply under AI
    or an error under System.  The echoed texts are not empty and carry no
    whitespace at either end. *)
Theorem display_is_transcript (tok : Tokenizer) (mdl : Model)
    (texts : list str) :
  exists answers : list (option answer),
    length answers = length (spoken texts)
    /\ shown (session texts (new_app tok mdl))
       = welcome ++ concat (turn_chunks <$> zip (spoken texts) answers)
    /\ Forall (fun s => trimmed s = true) (spoken texts).
Proof.
  enough (exists answers : list (option answer),
            length answers = length (spoken texts)
            /\ shown (session texts (new_app tok mdl))
               = welcome ++ concat (turn_chunks <$> zip (spoken texts) answers))
    as (answers & Hlen & Hshown)
    by (exists answers; auto using spoken_trimmed).
  induction texts as [| text texts (answers & Hlen & Hshown)] using rev_ind.
  - exists []. split; [done |].
    unfold session, shown. cbn [foldl].
    rewrite new_app_display, chunks_render.
    unfold welcome. by rewrite app_nil_r.
  - rewrite session_snoc, spoken_snoc, run_turn_outcome, shown_after.
    change (shown (set_user_input text ?a)) with (shown a).
    rewrite Hshown. cbn [user_input set_user_input].
    destruct (decide (strip text = [])) as [Hblank | Hne].
    + exists answers. rewrite !app_nil_r. split; [done |].
      assert (Ho : outcome_of (set_user_input text (session texts (new_app tok mdl)))
                   = Ignored) by by apply outcome_of_Ignored.
      by rewrite Ho, app_nil_r.
    + destruct (outcome_of _) as [| e | input e | input response reply] eqn:Ho;
        [by apply outcome_of_Ignored in Ho | ..];
        match goal with
        | |- context [answer_of ?o] => exists (answers ++ [answer_of o])
        end;
        (split; [rewrite !length_app; simpl; lia |]);
        rewrite zip_with_app by done;
        rewrite fmap_app, concat_app, <- app_assoc;
        cbn [zip_with fmap list_fmap concat]; by rewrite app_nil_r.
Qed.

Lemma render_styled (sender tag color message : str) (w : ScrolledText) :
  tags !! sender = Some (tag, color) ->
  tag_styles w !! lit "msg" ≫= foreground = None ->
  Forall (piece_styled w) (chunks w) ->
  tag_styles (render_message sender tag color message w) !! lit "msg"
    = Some message_style
  /\ Forall (piece_styled (render_message sender tag color message w))
       (chunks (render_message sender tag color message w)).
Proof.
  intros Htag Hfg Hold.
  pose proof (tags_tag_not_msg _ _ _ Htag) as Hne.
  assert (Hmsg : tag_styles (render_message sender tag color message w)
                   !! lit "msg" = Some message_style).
  { rewrite tag_styles_render by done. by rewrite lookup_insert_eq, Hfg. }
  assert (Hlabel : tag_styles (render_message sender tag color message w)
                     !! tag = Some (label_style color)).
  { rewrite tag_styles_render by done.
    by rewrite lookup_insert_ne, lookup_insert_eq. }
  split; [exact Hmsg |].
  rewrite chunks_render. apply Forall_app. split.
  - eapply Forall_impl; [exact Hold |].
    intros piece [[Hp _] | (sender0 & color0 & Htag0 & Hp & Hstyle)];
      unfold piece_styled.
    + by left.
    + right. exists sender0, color0. repeat split; try done.
      destruct (decide (piece.2 = tag)) as [Heq | Hother].
      * rewrite Heq in Htag0 |- *.
        by destruct (tags_tag_color _ _ _ _ _ Htag Htag0) as [_ ->].
      * rewrite tag_styles_render by done.
        rewrite !lookup_insert_ne; try done.
        intros Hm. symmetry in Hm. by apply (tags_tag_not_msg _ _ _ Htag0).
  - unfold rendered. repeat apply Forall_cons_2; [| | by constructor].
    + right. by exists sender, color.
    + by left.
Qed.

(** X18.  In every state of a session each piece of text in the display has
    a configured style: a message piece carries the tag [msg] with the plain
    font, and a label piece is a sender of the dictionary followed by a colon
    and a space, tagged with that sender's tag, in bold and in that sender's
    colour. *)
Theorem display_pieces_styled (tok : Tokenizer) (mdl : Model)
    (app : ChatbotApp) :
  reachable_from (new_app tok mdl) app ->
  Forall (piece_styled (chat_display app)) (shown app).
Proof.
  intros Hr.
  enough (tag_styles (chat_display app) !! lit "msg" = Some message_style
          /\ Forall (piece_styled (chat_display app)) (shown app)) as [_ H]
    by exact H.
  unfold shown. induction Hr as [| app text _ [IHm IHp]].
  - rewrite new_app_display.
    apply render_styled; [exact tags_AI | done | by constructor].
  - rewrite run_turn_outcome, chat_display_after.
    change (chat_display (set_user_input text app)) with (chat_display app).
    assert (Hyou :
      tag_styles (render_message (lit "You") (lit "you") (lit "#2c3e50")
                    (strip (user_input (set_user_input text app)))
                    (chat_display app)) !! lit "msg" = Some message_style
      /\ Forall (piece_styled
                   (render_message (lit "You") (lit "you") (lit "#2c3e50")
                      (strip (user_input (set_user_input text app)))
                      (chat_display app)))
           (chunks (render_message (lit "You") (lit "you") (lit "#2c3e50")
                      (strip (user_input (set_user_input text app)))
                      (chat_display app)))).
    { apply render_styled; [exact tags_You | by rewrite IHm | done]. }
    destruct Hyou as [Hm Hp].
    destruct (outcome_of _) as [| e | input e |]; [done | ..]; cbv zeta;
      try (destruct (is_Exception e); [| done]);
      (apply render_styled; [first [exact tags_System | exact tags_AI]
                            | by rewrite Hm | done]).
Qed.

(** ** [__init__] and [setup_ui], lines 53-129 *)

Lemma init_run (tok : Tokenizer) (mdl : Model) :
  init tok mdl
  = (show (lit "AI") (lit "ai") (lit "#2980b9")
       (lit "Hello! How can I help you today?")
       {| tokenizer :=
            match pad_token tok with
            | None =>
                {| encode := encode tok; decode := decode tok;
                   eos_token := eos_token tok;
                   eos_token_id := eos_token_id tok;
                   pad_token := Some (eos_token tok) |}
            | Some _ => tok
            end;
          model := mdl; chat_history_ids := None;
          max_history_length := 1024;
          chat_display := fresh_display; user_input := [];
          generate_calls := [] |},
     Ok tt).
Proof.
  unfold init, setup_ui, mbind, M_bind, modify.
  by rewrite (update_chat_known _ _ _ _ _ tags_AI).
Qed.

(** X19.  Building the application from a loaded tokenizer and model never
    raises; it starts with no context and an empty entry, has not called the
    model, and shows the greeting under the label AI and nothing else. *)
Theorem init_state (tok : Tokenizer) (mdl : Model) :
  (init tok mdl).2 = Ok tt
  /\ chat_history_ids (new_app tok mdl) = None
  /\ user_input (new_app tok mdl) = []
  /\ generate_calls (new_app tok mdl) = []
  /\ shown (new_app tok mdl) = welcome.
Proof.
  unfold new_app. rewrite init_run. cbn [fst snd].
  by rewrite shown_show.
Qed.

(** X20.  Throughout a session the tokenizer is the one the application
    was built with, except for its pad token: that is the tokenizer's own
    when it had one and its end-of-text token otherwise, so it is never
    missing. *)
Theorem tokenizer_pad_token_set (tok : Tokenizer) (mdl : Model)
    (app : ChatbotApp) :
  reachable_from (new_app tok mdl) app ->
  encode (tokenizer app) = encode tok
  /\ decode (tokenizer app) = decode tok
  /\ eos_token (tokenizer app) = eos_token tok
  /\ eos_token_id (tokenizer app) = eos_token_id tok
  /\ pad_token (tokenizer app) = Some (default (eos_token tok) (pad_token tok)).
Proof.
  intros Hr.
  assert (Htok : tokenizer app = tokenizer (new_app tok mdl)).
  { induction Hr as [| app text _ IH]; [done |].
    by rewrite run_turn_outcome, tokenizer_after. }
  rewrite Htok. unfold new_app. rewrite init_run.
  cbn [fst show set_chat_display tokenizer].
  by destruct tok as [? ? ? ? [p |]].
Qed.

(** ** [install_dependencies], lines 6-47 *)

Section Install.

Variable h : Host.

Lemma install_present :
  present h = true -> install_dependencies h = ([], Done tt).
Proof.
  unfold present, importable, install_dependencies, except_ImportError,
    mbind, P_bind, import.
  destruct (import_module h (lit "torch")); [| done].
  by destruct (import_module h (lit "transformers")).
Qed.

Lemma installing_run :
  except_Exception
    (exe ← sys_executable ;
     subprocess_check_call (pip_install exe torch_packages) ;;
     exe' ← sys_executable ;
     subprocess_check_call (pip_install exe' transformers_packages) ;;
     messagebox_showinfo (lit "Success")
       (lit "Libraries installed successfully!" ++ [newline]
        ++ lit "Restart the application.") ;;
     sys_exit 0)
    (fun e =>
       messagebox_showerror (lit "Installation Failed")
         (lit "Error installing dependencies:" ++ [newline] ++ raised_str e) ;;
       sys_exit 1) h
  = installing h.
Proof.
  unfold installing, failing, failure_shown, success_shown, torch_args,
    transformers_args, failure_dialog, success_dialog.
  unfold except_Exception, mbind, P_bind, messagebox_showinfo,
    messagebox_showerror, subprocess_check_call, sys_exit, sys_executable,
    completed.
  destruct (check_call h (pip_install _ torch_packages)) as [[] | e1];
    cbn [raised_is_Exception app].
  2: { destruct (is_Exception e1); [| done]. by destruct (showerror h _ _). }
  destruct (check_call h (pip_install _ transformers_packages)) as [[] | e2];
    cbn [raised_is_Exception app].
  2: { destruct (is_Exception e2); [| done]. by destruct (showerror h _ _). }
  destruct (showinfo h _ _) as [[] | e3]; cbn [raised_is_Exception app];
    [done |].
  destruct (is_Exception e3); [| done]. by destruct (showerror h _ _).
Qed.

Lemma install_missing :
  missing h = true -> install_dependencies h = asking h.
Proof.
  intros Hmissing.
  assert (Hhandler :
    (yes ← messagebox_askyesno (lit "Dependencies Missing")
       (lit "Required packages (PyTorch & Transformers) are missing. Install now? (Internet connection required)") ;
     if (yes : bool) then
       except_Exception
         (exe ← sys_executable ;
          subprocess_check_call (pip_install exe torch_packages) ;;
          exe' ← sys_executable ;
          subprocess_check_call (pip_install exe' transformers_packages) ;;
          messagebox_showinfo (lit "Success")
            (lit "Libraries installed successfully!" ++ [newline]
             ++ lit "Restart the application.") ;;
          sys_exit 0)
         (fun e =>
            messagebox_showerror (lit "Installation Failed")
              (lit "Error installing dependencies:" ++ [newline]
               ++ raised_str e) ;;
            sys_exit 1)
     else mret tt) h = asking h).
  { unfold asking, asked. unfold mbind at 1. unfold P_bind at 1.
    unfold messagebox_askyesno, completed.
    destruct (askyesno h _ _) as [[|] | e]; [| done | done].
    rewrite installing_run. by destruct (installing h). }
  unfold install_dependencies, except_ImportError.
  rewrite Hhandler. clear Hhandler.
  unfold missing in Hmissing. unfold mbind, P_bind, import.
  destruct (import_module h (lit "torch")) as [| [d | e]];
    [| by destruct (asking h) | done].
  destruct (import_module h (lit "transformers")) as [| [d | e]];
    [done | by destruct (asking h) | done].
Qed.

Lemma install_import_raises :
  present h = false -> missing h = false ->
  exists e, install_dependencies h = ([], Raised (OtherException e)).
Proof.
  unfold present, missing, importable, install_dependencies,
    except_ImportError, mbind, P_bind, import.
  destruct (import_module h (lit "torch")) as [| [d | e]];
    [| done | by eexists].
  destruct (import_module h (lit "transformers")) as [| [d | e]];
    [done | done | by eexists].
Qed.

(** The three ways a run begins. *)
Lemma install_cases :
  install_dependencies h = ([], Done tt) /\ present h = true
  \/ install_dependencies h = asking h
     /\ present h = false /\ missing h = true
  \/ (exists e, install_dependencies h = ([], Raised (OtherException e)))
     /\ present h = false /\ missing h = false.
Proof.
  destruct (present h) eqn:Hp; [left; by split; [apply install_present |] |].
  destruct (missing h) eqn:Hm;
    [right; left; by split; [apply install_missing |] |].
  right; right. by split; [apply install_import_raises |].
Qed.

Lemma present_not_missing : present h = true -> missing h = false.
Proof.
  unfold present, missing, importable.
  destruct (import_module h (lit "torch")); [| done].
  by destruct (import_module h (lit "transformers")).
Qed.

(** Closes a goal from a hypothesis [H] that puts an event in a run that
    does not hold it. *)
Ltac absurd_event H :=
  unfold question, failure_dialog, success_dialog in H;
  repeat (apply elem_of_cons in H as [H | H]; [discriminate H |]);
  by apply elem_of_nil in H.

Lemma torch_args_not_transformers_args : torch_args h <> transformers_args h.
Proof. unfold torch_args, transformers_args, pip_install. simpl. by intros [=]. Qed.

Lemma failing_fst (tr : list event) (r : raised) :
  (failing h tr r).1 = tr \/ (failing h tr r).1 = tr ++ [failure_dialog r].
Proof. unfold failing. destruct (raised_is_Exception r); auto. Qed.

Lemma failing_snd (tr : list event) (r : raised) :
  (failing h tr r).2 <> SystemExit 0 /\ forall u, (failing h tr r).2 <> Done u.
Proof.
  unfold failing. destruct (raised_is_Exception r); [| done].
  by destruct (failure_shown h r).
Qed.

(** X21.  When [torch] and [transformers] both import, the function
    returns at once: it shows no dialog and runs no command. *)
Theorem install_silent_when_present :
  importable h (lit "torch") = true ->
  importable h (lit "transformers") = true ->
  install_dependencies h = ([], Done tt).
Proof.
  intros Ht Hf. apply install_present.
  unfold present. by rewrite Ht, Hf.
Qed.

(** X22.  The process exits with status 0 exactly when an import raised
    [ImportError], the user agreed, both [pip] commands returned and the
    success dialog returned.  The run is then the question, the [torch]
    command, the [transformers] command and the dialog that asks for a
    restart, in that order. *)
Theorem install_exit_zero_iff :
  ((install_dependencies h).2 = SystemExit 0
   <-> missing h = true /\ asked h = Ok true
       /\ check_call h (torch_args h) = Ok tt
       /\ check_call h (transformers_args h) = Ok tt
       /\ success_shown h = Ok tt)
  /\ ((install_dependencies h).2 = SystemExit 0 ->
      (install_dependencies h).1
      = [question; CheckCall (torch_args h);
         CheckCall (transformers_args h); success_dialog]).
Proof.
  destruct install_cases
    as [[-> Hp] | [(-> & Hp & Hm) | ([e ->] & Hp & Hm)]];
    cbn [fst snd].
  - apply present_not_missing in Hp. rewrite Hp. intuition congruence.
  - rewrite Hm. unfold asking, installing.
    destruct (asked h) as [[|] | e]; cbn [fst snd];
      [| intuition congruence ..].
    destruct (check_call h (torch_args h)) as [[] | e1].
    2: { pose proof (failing_snd [CheckCall (torch_args h)] (OtherException e1)).
         intuition congruence. }
    destruct (check_call h (transformers_args h)) as [[] | e2].
    2: { pose proof (failing_snd [CheckCall (torch_args h);
                                  CheckCall (transformers_args h)]
                       (OtherException e2)).
         intuition congruence. }
    destruct (success_shown h) as [[] | e3].
    2: { pose proof (failing_snd [CheckCall (torch_args h);
                                  CheckCall (transformers_args h);
                                  success_dialog]
                       (OtherException e3)).
         intuition congruence. }
    cbn [fst snd]. intuition congruence.
  - rewrite Hm. intuition congruence.
Qed.

(** X23.  A command is run only when an import raised [ImportError] and
    the user agreed, and a run that ran a command never returns to the
    program: it ends in [sys.exit] or in a raise. *)
Theorem install_needs_consent (args : list str) :
  CheckCall args ∈ (install_dependencies h).1 ->
  missing h = true /\ asked h = Ok true
  /\ forall u, (install_dependencies h).2 <> Done u.
Proof.
  destruct install_cases
    as [[-> Hp] | [(-> & Hp & Hm) | ([e ->] & Hp & Hm)]];
    cbn [fst snd]; try (intros Hin; absurd_event Hin).
  unfold asking.
  destruct (asked h) as [[|] | e]; cbn [fst snd];
    try (intros Hin; absurd_event Hin).
  intros _. split; [done |]. split; [done |].
  unfold installing.
  destruct (check_call h (torch_args h)) as [[] | e1];
    [| apply failing_snd].
  destruct (check_call h (transformers_args h)) as [[] | e2];
    [| apply failing_snd].
  destruct (success_shown h) as [[] | e3]; [done | apply failing_snd].
Qed.

(** X24.  [transformers] is installed only after [torch] was: if the run
    holds the [transformers] command, the [torch] command succeeded and
    stands right before it. *)
Theorem install_torch_first :
  CheckCall (transformers_args h) ∈ (install_dependencies h).1 ->
  check_call h (torch_args h) = Ok tt
  /\ take 3 (install_dependencies h).1
     = [question; CheckCall (torch_args h); CheckCall (transformers_args h)].
Proof.
  pose proof torch_args_not_transformers_args as Hne.
  destruct install_cases
    as [[-> Hp] | [(-> & Hp & Hm) | ([e ->] & Hp & Hm)]];
    cbn [fst snd]; try (intros Hin; absurd_event Hin).
  unfold asking.
  destruct (asked h) as [[|] | e]; cbn [fst snd];
    try (intros Hin; absurd_event Hin).
  unfold installing.
  destruct (check_call h (torch_args h)) as [[] | e1].
  - intros _. split; [done |].
    destruct (check_call h (transformers_args h)) as [[] | e2].
    + destruct (success_shown h) as [[] | e3]; [done |].
      by destruct (failing_fst [CheckCall (torch_args h);
                                CheckCall (transformers_args h);
                                success_dialog] (OtherException e3))
        as [-> | ->].
    + by destruct (failing_fst [CheckCall (torch_args h);
                                CheckCall (transformers_args h)]
                     (OtherException e2)) as [-> | ->].
  - intros Hin. exfalso.
    apply elem_of_cons in Hin as [Hin | Hin]; [discriminate Hin |].
    destruct (failing_fst [CheckCall (torch_args h)] (OtherException e1))
      as [Htr | Htr]; rewrite Htr in Hin; cbn [app] in Hin;
      (apply elem_of_cons in Hin as [Hin | Hin];
         [injection Hin as Hin; by symmetry in Hin |]);
      absurd_event Hin.
Qed.

(** X25.  The function returns to the program exactly when both modules
    import, or an import raised [ImportError] and the user declined. *)
Theorem install_returns_iff :
  (install_dependencies h).2 = Done tt
  <-> present h = true \/ (missing h = true /\ asked h = Ok false).
Proof.
  destruct install_cases
    as [[-> Hp] | [(-> & Hp & Hm) | ([e ->] & Hp & Hm)]];
    cbn [fst snd].
  - intuition congruence.
  - rewrite Hp, Hm. unfold asking.
    destruct (asked h) as [[|] | e]; cbn [fst snd];
      [| intuition congruence ..].
    unfold installing.
    destruct (check_call h (torch_args h)) as [[] | e1].
    2: { pose proof (failing_snd [CheckCall (torch_args h)] (OtherException e1))
           as [_ Hnot]. specialize (Hnot tt). intuition congruence. }
    destruct (check_call h (transformers_args h)) as [[] | e2].
    2: { pose proof (failing_snd [CheckCall (torch_args h);
                                  CheckCall (transformers_args h)]
                       (OtherException e2)) as [_ Hnot].
         specialize (Hnot tt). intuition congruence. }
    destruct (success_shown h) as [[] | e3].
    2: { pose proof (failing_snd [CheckCall (torch_args h);
                                  CheckCall (transformers_args h);
                                  success_dialog]
                       (OtherException e3)) as [_ Hnot].
         specialize (Hnot tt). intuition congruence. }
    cbn [fst snd]. intuition congruence.
  - rewrite Hp, Hm. intuition congruence.
Qed.

(** X26.  Let an import have raised [ImportError], the user have agreed,
    and a [pip] command raise [e].  When [e] is an instance of [Exception],
    the last thing shown is the error dialog with the text of [e], the
    success dialog is not shown, and the process exits with status 1 once
    the error dialog returns.  When it is not, [e] leaves the function and
    no error dialog is shown. *)
Theorem install_failure_reported (e : exn) :
  missing h = true -> asked h = Ok true ->
  check_call h (torch_args h) = Raise e
  \/ (check_call h (torch_args h) = Ok tt
      /\ check_call h (transformers_args h) = Raise e) ->
  (is_Exception e = true ->
     (last ((install_dependencies h).1)
      = Some (failure_dialog (OtherException e)))
     /\ (success_dialog ∉ (install_dependencies h).1)
     /\ (failure_shown h (OtherException e) = Ok tt ->
         (install_dependencies h).2 = SystemExit 1))
  /\ (is_Exception e = false ->
      (install_dependencies h).2 = Raised (OtherException e)
      /\ forall title message,
           ShowError title message ∉ (install_dependencies h).1).
Proof.
  intros Hm Ha Hfail. rewrite (install_missing Hm).
  unfold asking. rewrite Ha. cbn [fst snd]. unfold installing.
  destruct Hfail as [-> | [-> ->]]; unfold failing;
    cbn [raised_is_Exception]; (split; intros ->; cbn [fst snd app]).
  - split; [done |]. split; [intros Hin; absurd_event Hin |].
    by intros ->.
  - split; [done |]. intros title message Hin. absurd_event Hin.
  - split; [done |]. split; [intros Hin; absurd_event Hin |].
    by intros ->.
  - split; [done |]. intros title message Hin. absurd_event Hin.
Qed.

End Install.

End Program.

(** * The program run on small collaborators

    Examples, and for each theorem with a hypothesis an input that meets
    it.  [repr] is [toy_repr]. *)

Import Bootstrap.

Example enforce_budget_10 :
  enforce_budget 10 [1;2;3;4;5;6;7;8;9;10;11;12] = [8;9;10;11;12].
Proof. reflexivity. Qed.

Example enforce_budget_3 :
  enforce_budget 3 [1;2;3;4] = [3;4].
Proof. reflexivity. Qed.

Example strip_blank : strip [32; 9; 10; 160; 8195; 32]%N = [].
Proof. reflexivity. Qed.

Example strip_hi : strip (lit "  hi there ") = lit "hi there".
Proof. reflexivity. Qed.

Example toy_first_turn :
  let app := run_turn toy_repr (lit " hi ") toy_app in
  chat_history_ids app = Some [104; 105; 36; 111; 107; 36]
  /\ shown app = rendered (lit "AI") (lit "ai") (lit "Hello! How can I help you today?")
                 ++ rendered (lit "You") (lit "you") (lit "hi")
                 ++ rendered (lit "AI") (lit "ai") (lit "ok")
  /\ user_input app = [].
Proof. vm_compute. done. Qed.

Example toy_interrupted_turn :
  let app := set_user_input (lit "hi^") toy_app in
  send_message toy_repr app
  = (log_generate_call [104; 105; 94; 36] (decoding_config app) (echoed app),
     Raise (BaseException (lit "KeyboardInterrupt"))).
Proof. vm_compute. reflexivity. Qed.

Example toy_failed_turn :
  let app := run_turn toy_repr (lit "hi!") toy_app in
  chat_history_ids app = None
  /\ shown app = rendered (lit "AI") (lit "ai") (lit "Hello! How can I help you today?")
                 ++ rendered (lit "You") (lit "you") (lit "hi!")
                 ++ rendered (lit "System") (lit "sys") (lit "Error: boom").
Proof. vm_compute. done. Qed.

Example long_two_turns :
  let app := run_turn toy_repr (lit "b") (run_turn toy_repr (lit "a") (new_app toy_tokenizer long_model)) in
  length (context (run_turn toy_repr (lit "a") (new_app toy_tokenizer long_model))) = 602%nat
  /\ length (context app) = 512%nat.
Proof. vm_compute. done. Qed.

Example install_on_ready_host :
  install_dependencies toy_repr ready_host = ([], Done tt).
Proof. reflexivity. Qed.

Example install_on_bare_host :
  (install_dependencies toy_repr bare_host).2 = SystemExit 1
  /\ length (install_dependencies toy_repr bare_host).1 = 4%nat.
Proof. vm_compute. done. Qed.

Example install_on_fresh_host :
  (install_dependencies toy_repr fresh_host).2 = SystemExit 0.
Proof. reflexivity. Qed.

Example install_on_interrupted_host :
  install_dependencies toy_repr interrupted_host
  = ([question; CheckCall (torch_args interrupted_host)],
     Raised (OtherException (BaseException (lit "KeyboardInterrupt")))).
Proof. reflexivity. Qed.

Lemma enforce_budget_halving_even_witness :
  0 < 10 /\ Z.even 10 = true /\ shape_last [1;2;3;4;5;6;7;8;9;10;11;12] > 10
  /\ halving_truncation 10 [1;2;3;4;5;6;7;8;9;10;11;12].
Proof.
  split; [lia |]. split; [reflexivity |]. split; [reflexivity |].
  apply (enforce_budget_halving_even 10); [lia | reflexivity].
Defined.

(** C1 as the specification states it fails for an odd limit: with
    [max_length = 3] a row of four tokens keeps its last two, not its last
    [3 // 2 = 1]. *)
Lemma enforce_budget_odd_counterexample :
  ~ halving_truncation 3 [1; 2; 3; 4].
Proof.
  intros [Hover _].
  destruct Hover as [Heq _]; [reflexivity |].
  vm_compute in Heq. discriminate Heq.
Qed.

Lemma enforce_budget_idempotent_witness :
  0 <= 1024
  /\ enforce_budget 1024 (enforce_budget 1024 (replicate 1030 7))
     = enforce_budget 1024 (replicate 1030 7).
Proof.
  split; [lia |]. apply (enforce_budget_idempotent 1024). lia.
Defined.

Lemma blank_input_noop_witness :
  strip (lit "   ") = []
  /\ send_message toy_repr (set_user_input (lit "   ") toy_app)
     = (set_user_input (lit "   ") toy_app, Ok tt).
Proof.
  split; [reflexivity |].
  apply (blank_input_noop toy_repr (lit "   ") toy_app). reflexivity.
Defined.

Lemma generation_input_continuity_witness :
  let app := set_user_input (lit "yo") (run_turn toy_repr (lit "hi") toy_app) in
  context app = [104; 105; 36; 111; 107; 36]
  /\ exists input,
       generate_calls (send_message toy_repr app).1
         = generate_calls app ++ [(input, decoding_config app)]
       /\ (context app = [] -> input = [121; 111; 36])
       /\ (context app <> [] -> input = context app ++ [121; 111; 36]).
Proof.
  split; [reflexivity |].
  apply (generation_input_continuity toy_repr
           (set_user_input (lit "yo") (run_turn toy_repr (lit "hi") toy_app))
           (lit "yo") [121; 111; 36]).
  - reflexivity.
  - discriminate.
  - reflexivity.
Defined.

Lemma slice_correctness_witness :
  let app := set_user_input (lit "hi") toy_app in
  shown (send_message toy_repr app).1
  = shown app ++ rendered (lit "You") (lit "you") (lit "hi")
              ++ rendered (lit "AI") (lit "ai") (lit "ok").
Proof.
  apply (slice_correctness toy_repr (set_user_input (lit "hi") toy_app) (lit "hi")
           [104; 105; 36] [111; 107; 36] (lit "ok"));
    [reflexivity | discriminate | reflexivity | reflexivity | reflexivity].
Defined.

Lemma failed_turn_isolated_witness :
  let app := set_user_input (lit "no!") (run_turn toy_repr (lit "hi") toy_app) in
  generate (model app) (context app ++ [110; 111; 33; 36]) (decoding_config app)
    = Raise (Exception (lit "boom"))
  /\ chat_history_ids (send_message toy_repr app).1 = Some [104; 105; 36; 111; 107; 36]
  /\ (send_message toy_repr app).2 = Ok tt
  /\ shown (send_message toy_repr app).1
     = shown app ++ rendered (lit "You") (lit "you") (lit "no!")
                 ++ rendered (lit "System") (lit "sys") (lit "Error: boom").
Proof.
  split; [reflexivity |].
  destruct (failed_turn_isolated toy_repr
              (set_user_input (lit "no!") (run_turn toy_repr (lit "hi") toy_app))
              (lit "no!") (Exception (lit "boom")))
    as (Hcontext & Hcaught & _).
  - reflexivity.
  - discriminate.
  - apply (generate_raises _ _ _ [110; 111; 33; 36]); reflexivity.
  - split; [exact Hcontext |]. exact (Hcaught eq_refl).
Defined.

(** C3 as the specification states it fails: in a turn where the model
    raises, the display gains the echo of the user's text before the system
    message, so the system message is not the only emission. *)
Lemma failed_turn_echo_counterexample :
  let app := set_user_input (lit "hi!") toy_app in
  turn_raises app (lit "hi!") (Exception (lit "boom"))
  /\ ~ isolated_with_only_a_system_message app (send_message toy_repr app).1.
Proof.
  split.
  - apply (generate_raises _ _ _ [104; 105; 33; 36]); reflexivity.
  - intros [_ [message Hshown]].
    apply (f_equal length) in Hshown.
    rewrite length_app in Hshown. vm_compute in Hshown. discriminate Hshown.
Qed.

Lemma update_chat_labels_witness :
  (exists app',
     update_chat (lit "Bot") (lit "hello") toy_app
       = (app', Raise (KeyError (lit "Bot")))
     /\ shown app' = shown toy_app)
  /\ lit "Bot" ∉ [lit "You"; lit "AI"; lit "System"].
Proof.
  assert (Hnot : lit "Bot" ∉ [lit "You"; lit "AI"; lit "System"]).
  { intros Hin. repeat (apply elem_of_cons in Hin as [Heq | Hin];
      [vm_compute in Heq; discriminate Heq |]).
    by apply elem_of_nil in Hin. }
  split; [| exact Hnot].
  exact (proj2 (update_chat_labels (lit "Bot") (lit "hello") toy_app) Hnot).
Defined.

Lemma budget_invariant_witness :
  let app := run_turn toy_repr (lit "b")
               (run_turn toy_repr (lit "a") (new_app toy_tokenizer long_model)) in
  shape_last (context app) = 512 /\ shape_last (context app) <= 1024.
Proof.
  split; [vm_compute; reflexivity |].
  apply (budget_invariant toy_repr toy_tokenizer long_model).
  apply reach_turn, reach_turn, reach_start.
Defined.

Lemma fixed_decoding_configuration_witness :
  let app := run_turn toy_repr (lit "no!") (run_turn toy_repr (lit "hi") toy_app) in
  length (generate_calls app) = 2%nat
  /\ Forall (fun c : tensor * GenerationConfig =>
               c.2 = {| max_length := 1024; pad_token_id := 36;
                        temperature := 7 # 10; repetition_penalty := 12 # 10 |})
       (generate_calls app).
Proof.
  split; [reflexivity |].
  apply (fixed_decoding_configuration toy_repr toy_tokenizer toy_model).
  apply reach_turn, reach_turn, reach_start.
Defined.

(** C7 as the specification states it fails: nothing makes the model
    return its input.  With a model that returns an empty row, a turn that
    succeeds takes a context of four tokens to a context without tokens. *)
Lemma active_emptied_counterexample :
  let app := run_turn toy_repr (lit "hi") (new_app toy_tokenizer forgetful_model) in
  chat_history_ids app = Some [104; 105; 36; 1]
  /\ active app
  /\ (send_message toy_repr (set_user_input (lit "yo") app)).2 = Ok tt
  /\ chat_history_ids (run_turn toy_repr (lit "yo") app) = Some []
  /\ ~ active (run_turn toy_repr (lit "yo") app).
Proof.
  split; [reflexivity |]. split; [by vm_compute |].
  split; [reflexivity |]. split; [reflexivity |].
  intros Hactive. by vm_compute in Hactive.
Qed.

Lemma active_forever_witness :
  let app := run_turn toy_repr (lit "hi") toy_app in
  let app' := run_turn toy_repr (lit "yo") (run_turn toy_repr (lit "no!") (run_turn toy_repr (lit "  ") app)) in
  active app /\ active app'.
Proof.
  assert (Hactive : active (run_turn toy_repr (lit "hi") toy_app))
    by (vm_compute; discriminate).
  split; [exact Hactive |].
  apply (active_forever toy_repr toy_tokenizer toy_model (run_turn toy_repr (lit "hi") toy_app)).
  - exact toy_model_contract.
  - apply reach_turn, reach_start.
  - exact Hactive.
  - apply reach_turn, reach_turn, reach_turn, reach_start.
Defined.

Lemma enforce_budget_keeps_upper_half_witness :
  0 < 5 /\ shape_last [1; 2; 3; 4; 5; 6; 7] > 5
  /\ enforce_budget 5 [1; 2; 3; 4; 5; 6; 7] = [5; 6; 7].
Proof.
  split; [lia |]. split; [reflexivity |].
  exact (proj1 (enforce_budget_keeps_upper_half 5 [1; 2; 3; 4; 5; 6; 7]
                  ltac:(lia) ltac:(reflexivity))).
Defined.

Lemma enforce_budget_positive_limit_witness :
  0 < 1
  /\ shape_last (enforce_budget 1 [7; 8; 9]) <= 1
  /\ ([7; 8; 9] <> [] -> enforce_budget 1 [7; 8; 9] <> []).
Proof.
  split; [lia |]. apply (enforce_budget_positive_limit 1 [7; 8; 9]). lia.
Defined.

Lemma turn_adds_echo_and_answer_witness :
  strip (lit "  hi there ") <> []
  /\ trimmed (strip (lit "  hi there ")) = true
  /\ shown (run_turn toy_repr (lit "  hi there ") toy_app)
     = shown toy_app ++ exchange_chunks toy_repr (lit "hi there", Reply (lit "ok"))
  /\ match (send_message toy_repr (set_user_input (lit " ^ ") toy_app)).2 with
     | Ok _ =>
         exists a, shown (run_turn toy_repr (lit " ^ ") toy_app)
                   = shown toy_app ++ exchange_chunks toy_repr (strip (lit " ^ "), a)
     | Raise e =>
         is_Exception e = false
         /\ shown (run_turn toy_repr (lit " ^ ") toy_app)
            = shown toy_app
              ++ rendered (lit "You") (lit "you") (strip (lit " ^ "))
     end.
Proof.
  split; [discriminate |]. split; [reflexivity |]. split; [reflexivity |].
  apply (turn_adds_echo_and_answer toy_repr (lit " ^ ") toy_app). discriminate.
Defined.

Lemma successful_turn_context_witness :
  let app := run_turn toy_repr (lit "a") (new_app toy_tokenizer long_model) in
  shape_last (context app) = 602
  /\ chat_history_ids (run_turn toy_repr (lit "b") app)
     = Some (last_tokens 512 (context app ++ [98; 36] ++ replicate 600 7)).
Proof.
  split; [vm_compute; reflexivity |].
  apply (successful_turn_context toy_repr toy_tokenizer long_model
           (run_turn toy_repr (lit "a") (new_app toy_tokenizer long_model))
           (lit "b") [98; 36]
           (context (run_turn toy_repr (lit "a") (new_app toy_tokenizer long_model))
            ++ [98; 36] ++ replicate 600 7)
           (Z.to_N <$> replicate 600 7)).
  - apply reach_turn, reach_start.
  - discriminate.
  - reflexivity.
  - vm_compute. reflexivity.
  - vm_compute. reflexivity.
Defined.

Lemma context_changes_only_on_reply_witness :
  chat_history_ids (run_turn toy_repr (lit "hi") toy_app) <> chat_history_ids toy_app
  /\ exists reply,
       shown (run_turn toy_repr (lit "hi") toy_app)
       = shown toy_app ++ exchange_chunks toy_repr (strip (lit "hi"), Reply reply).
Proof.
  assert (H : chat_history_ids (run_turn toy_repr (lit "hi") toy_app)
              <> chat_history_ids toy_app) by (vm_compute; discriminate).
  split; [exact H |].
  exact (context_changes_only_on_reply toy_repr (lit "hi") toy_app H).
Defined.

Lemma history_never_reset_witness :
  chat_history_ids (run_turn toy_repr (lit "hi") toy_app) <> None
  /\ chat_history_ids
       (run_turn toy_repr (lit "no!") (run_turn toy_repr (lit " ") (run_turn toy_repr (lit "hi") toy_app)))
     <> None.
Proof.
  assert (H : chat_history_ids (run_turn toy_repr (lit "hi") toy_app) <> None)
    by (vm_compute; discriminate).
  split; [exact H |].
  apply (history_never_reset toy_repr (run_turn toy_repr (lit "hi") toy_app)); [exact H |].
  apply reach_turn, reach_turn, reach_start.
Defined.

Lemma update_chat_unknown_leaves_editable_witness :
  state (chat_display toy_app) = disabled
  /\ state (chat_display (update_chat (lit "Bot") (lit "hello") toy_app).1)
     = normal.
Proof.
  split; [reflexivity |].
  rewrite (update_chat_unknown_leaves_editable (lit "Bot") (lit "hello") toy_app).
  - reflexivity.
  - intros Hin. repeat (apply elem_of_cons in Hin as [Heq | Hin];
      [vm_compute in Heq; discriminate Heq |]).
    by apply elem_of_nil in Hin.
Defined.

Lemma update_chat_styles_witness :
  let w' := chat_display (update_chat (lit "System") (lit "oops") toy_app).1 in
  tags !! lit "System" = Some (lit "sys", lit "#e74c3c")
  /\ state w' = disabled
  /\ tag_styles w' !! lit "sys" = Some (label_style (lit "#e74c3c")).
Proof.
  split; [exact tags_System |].
  pose proof (update_chat_styles (lit "System") (lit "sys") (lit "#e74c3c")
                (lit "oops") toy_app tags_System) as (_ & Hstate & Hsys & _).
  split; [exact Hstate | exact Hsys].
Defined.

Lemma display_stays_disabled_witness :
  state (chat_display (run_turn toy_repr (lit "no!") (run_turn toy_repr (lit "hi") toy_app)))
  = disabled.
Proof.
  apply (display_stays_disabled toy_repr toy_tokenizer toy_model).
  apply reach_turn, reach_turn, reach_start.
Defined.

Lemma display_append_only_witness :
  shown toy_app
  `prefix_of` shown (run_turn toy_repr (lit "no!") (run_turn toy_repr (lit "hi") toy_app)).
Proof.
  apply (display_append_only toy_repr toy_app).
  apply reach_turn, reach_turn, reach_start.
Defined.

Example session_transcript :
  shown (session toy_repr [lit " hi"; lit "  "; lit "no!"; lit "^"] toy_app)
  = welcome
    ++ concat (turn_chunks toy_repr
                 <$> [(lit "hi", Some (Reply (lit "ok")));
                      (lit "no!", Some (Failure (Exception (lit "boom"))));
                      (lit "^", None)]).
Proof. vm_compute. reflexivity. Qed.

Lemma display_pieces_styled_witness :
  length (shown (run_turn toy_repr (lit "no!") (run_turn toy_repr (lit "hi") toy_app))) = 10%nat
  /\ Forall (piece_styled
               (chat_display (run_turn toy_repr (lit "no!") (run_turn toy_repr (lit "hi") toy_app))))
       (shown (run_turn toy_repr (lit "no!") (run_turn toy_repr (lit "hi") toy_app))).
Proof.
  split; [reflexivity |].
  apply (display_pieces_styled toy_repr toy_tokenizer toy_model).
  apply reach_turn, reach_turn, reach_start.
Defined.

Lemma tokenizer_pad_token_set_witness :
  pad_token toy_tokenizer = None
  /\ pad_token (tokenizer (run_turn toy_repr (lit "hi") toy_app)) = Some (lit "$").
Proof.
  split; [reflexivity |].
  apply (tokenizer_pad_token_set toy_repr toy_tokenizer toy_model).
  apply reach_turn, reach_start.
Defined.


Lemma install_silent_when_present_witness :
  install_dependencies toy_repr ready_host = ([], Done tt).
Proof.
  apply (install_silent_when_present toy_repr ready_host); reflexivity.
Defined.

Lemma install_needs_consent_witness :
  CheckCall (torch_args bare_host) ∈ (install_dependencies toy_repr bare_host).1
  /\ missing bare_host = true /\ asked bare_host = Ok true
  /\ forall u, (install_dependencies toy_repr bare_host).2 <> Done u.
Proof.
  assert (Hin : CheckCall (torch_args bare_host)
                ∈ (install_dependencies toy_repr bare_host).1).
  { vm_compute. apply list_elem_of_further, list_elem_of_here. }
  split; [exact Hin |].
  exact (install_needs_consent toy_repr bare_host (torch_args bare_host) Hin).
Defined.

Lemma install_torch_first_witness :
  check_call bare_host (torch_args bare_host) = Ok tt
  /\ take 3 (install_dependencies toy_repr bare_host).1
     = [question; CheckCall (torch_args bare_host);
        CheckCall (transformers_args bare_host)].
Proof.
  apply (install_torch_first toy_repr bare_host).
  vm_compute. apply list_elem_of_further, list_elem_of_further, list_elem_of_here.
Defined.

Lemma install_failure_reported_witness :
  last ((install_dependencies toy_repr bare_host).1)
  = Some (failure_dialog toy_repr
            (OtherException (Exception (lit "exit status 1"))))
  /\ (install_dependencies toy_repr bare_host).2 = SystemExit 1
  /\ (install_dependencies toy_repr interrupted_host).2
     = Raised (OtherException (BaseException (lit "KeyboardInterrupt"))).
Proof.
  destruct (install_failure_reported toy_repr bare_host
              (Exception (lit "exit status 1")))
    as [Hcaught _]; [reflexivity | reflexivity | right; by split |].
  destruct (Hcaught eq_refl) as (Hlast & _ & Hexit).
  destruct (install_failure_reported toy_repr interrupted_host
              (BaseException (lit "KeyboardInterrupt")))
    as [_ Hescapes]; [reflexivity | reflexivity | by left |].
  destruct (Hescapes eq_refl) as [Hraised _].
  split; [exact Hlast |]. split; [exact (Hexit eq_refl) | exact Hraised].
Defined.
